(** * CheckaJob: the knowledge-base assessment route

    A shallow embedding of [src/app/api/assess/route.ts]: the job catalog
    [KB], the keyword classifier [inferJob], the scorer [assessFromKB] and
    the request handler [POST], and of the submit handler of
    [src/app/page.tsx], followed by the properties of the specification
    that concern them and by further properties read off the code.

    Conventions of the embedding.
    - A JavaScript string is the list of its UTF-16 code units.
    - A JavaScript number is an integer or NaN; every quantity the route
      computes is a small integer, on which double arithmetic is exact.
    - Array objects live in a store and are named by references, so that
      sharing between the catalog and an assessment is visible.
    - [String.prototype.toLowerCase] is a variable of the development; the
      provider call and the process environment are a record [Env]. *)

From Stdlib Require Import List ZArith NArith Bool String Ascii Lia.
Import ListNotations.

Set Implicit Arguments.

(* ===================================================================== *)
(** ** JavaScript strings *)

Definition jsstring := list N.

(** The code units of a source literal, read from its UTF-8 bytes (one to
    three bytes per code unit: every literal of the route is in the BMP). *)
Fixpoint utf16 (acc : N) (more : nat) (s : string) : jsstring :=
  match s with
  | EmptyString => []
  | String a s' =>
      let b := N_of_ascii a in
      match more with
      | O => if (b <? 128)%N then b :: utf16 0%N 0 s'
             else if (b <? 224)%N then utf16 (N.land b 31) 1 s'
             else utf16 (N.land b 15) 2 s'
      | S O => (acc * 64 + N.land b 63)%N :: utf16 0%N 0 s'
      | S m => utf16 (acc * 64 + N.land b 63)%N m s'
      end
  end.

Definition js (s : string) : jsstring := utf16 0%N 0 s.

(** The double quote character, which a literal here cannot hold. *)
Definition dquote : jsstring := [34%N].

Fixpoint jseqb (a b : jsstring) : bool :=
  match a, b with
  | [], [] => true
  | x :: a', y :: b' => (x =? y)%N && jseqb a' b'
  | _, _ => false
  end.

(** [xs.join(sep)] on an array of strings. *)
Fixpoint join (sep : jsstring) (xs : list jsstring) : jsstring :=
  match xs with
  | [] => []
  | [x] => x
  | x :: rest => x ++ sep ++ join sep rest
  end.

(** Truthiness of a string value: the empty string is falsy. *)
Definition truthy (s : jsstring) : bool :=
  match s with [] => false | _ :: _ => true end.

(** [v || d] where [v] is a string or undefined. *)
Definition or_default (v : option jsstring) (d : jsstring) : jsstring :=
  match v with
  | Some s => if truthy s then s else d
  | None => d
  end.

(** [toLowerCase] on ASCII text, where it coincides with the built-in. *)
Definition toLowerCaseASCII (s : jsstring) : jsstring :=
  map (fun c => if ((65 <=? c) && (c <=? 90))%N then (c + 32)%N else c) s.

(** [s] occurs in [t] as a contiguous run of code units. *)
Definition contains (s t : jsstring) : Prop :=
  exists pre post, t = pre ++ s ++ post.

(* ===================================================================== *)
(** ** JavaScript numbers *)

Inductive number := Fin (z : Z) | NaN.

Definition num_add (a b : number) : number :=
  match a, b with Fin x, Fin y => Fin (x + y) | _, _ => NaN end.

Definition num_sub (a b : number) : number :=
  match a, b with Fin x, Fin y => Fin (x - y) | _, _ => NaN end.

Definition num_mul (a b : number) : number :=
  match a, b with Fin x, Fin y => Fin (x * y) | _, _ => NaN end.

(** [a < b] and [a > b]: false as soon as one side is NaN. *)
Definition num_lt (a b : number) : bool :=
  match a, b with Fin x, Fin y => (x <? y)%Z | _, _ => false end.

Definition num_gt (a b : number) : bool :=
  match a, b with Fin x, Fin y => (x >? y)%Z | _, _ => false end.

Definition Math_max (a b : number) : number :=
  match a, b with Fin x, Fin y => Fin (Z.max x y) | _, _ => NaN end.

Definition Math_min (a b : number) : number :=
  match a, b with Fin x, Fin y => Fin (Z.min x y) | _, _ => NaN end.

(** The value of a property read used as a number: [undefined], and the
    functions and objects a plain object inherits under names such as
    [constructor], all convert to NaN. *)
Definition ToNumber (v : option Z) : number :=
  match v with Some z => Fin z | None => NaN end.

(* ===================================================================== *)
(** ** Regular expressions of the classifier *)

Inductive regex :=
| Lit (s : jsstring)           (* a run of literal characters *)
| White                        (* \s *)
| Opt (r : regex)              (* r? *)
| Seq (r1 r2 : regex)          (* r1 r2 *)
| Alt (r1 r2 : regex).         (* r1|r2 *)

(** The characters [\s] accepts: WhiteSpace and LineTerminator. *)
Definition is_space (c : N) : bool :=
  existsb (N.eqb c)
    [9; 10; 11; 12; 13; 32; 160; 5760; 8192; 8193; 8194; 8195; 8196; 8197;
     8198; 8199; 8200; 8201; 8202; 8232; 8233; 8239; 8287; 12288; 65279]%N.

Fixpoint strip_prefix (p s : jsstring) : option jsstring :=
  match p with
  | [] => Some s
  | c :: p' =>
      match s with
      | d :: s' => if (c =? d)%N then strip_prefix p' s' else None
      | [] => None
      end
  end.

(** Every way [r] matches at the start of [s], as the text left over. *)
Fixpoint match_here (r : regex) (s : jsstring) : list jsstring :=
  match r with
  | Lit p => match strip_prefix p s with Some rest => [rest] | None => [] end
  | White => match s with c :: rest => if is_space c then [rest] else [] | [] => [] end
  | Opt r1 => match_here r1 s ++ [s]
  | Seq r1 r2 => flat_map (match_here r2) (match_here r1 s)
  | Alt r1 r2 => match_here r1 s ++ match_here r2 s
  end.

(** [text.match(r)] used as a condition: is there a match anywhere? *)
Fixpoint String_match (text : jsstring) (r : regex) : bool :=
  match match_here r text with
  | _ :: _ => true
  | [] => match text with [] => false | _ :: text' => String_match text' r end
  end.

(** The language of a regular expression. *)
Inductive Matches : regex -> jsstring -> Prop :=
| MLit p : Matches (Lit p) p
| MWhite c : is_space c = true -> Matches White [c]
| MOptNone r : Matches (Opt r) []
| MOptSome r m : Matches r m -> Matches (Opt r) m
| MSeq r1 r2 m1 m2 : Matches r1 m1 -> Matches r2 m2 -> Matches (Seq r1 r2) (m1 ++ m2)
| MAltL r1 r2 m : Matches r1 m -> Matches (Alt r1 r2) m
| MAltR r1 r2 m : Matches r2 m -> Matches (Alt r1 r2) m.

(* ===================================================================== *)
(** ** The store of array objects *)

Definition loc := nat.
Definition heap := list (list jsstring).

(** Computations that allocate and update arrays. *)
Definition M (A : Type) := heap -> A * heap.

Definition ret {A} (a : A) : M A := fun h => (a, h).

Definition bind {A B} (m : M A) (k : A -> M B) : M B :=
  fun h => let (a, h') := m h in k a h'.

Notation "x <- m ;; k" := (bind m (fun x => k))
  (at level 61, m at next level, right associativity).
Notation "m ;;; k" := (bind m (fun _ => k))
  (at level 61, right associativity).

(** The array a reference names (a reference never dangles in JavaScript;
    the default is there for totality only). *)
Definition deref (h : heap) (l : loc) : list jsstring := nth l h [].

Fixpoint modify (l : loc) (f : list jsstring -> list jsstring) (h : heap) : heap :=
  match h, l with
  | [], _ => []
  | a :: h', O => f a :: h'
  | a :: h', S l' => a :: modify l' f h'
  end.

(** An array literal: a new object. *)
Definition alloc (xs : list jsstring) : M loc :=
  fun h => (List.length h, h ++ [xs]).

(** [a.push(x)] and [a.unshift(x)]. *)
Definition push (a : loc) (x : jsstring) : M unit :=
  fun h => (tt, modify a (fun xs => xs ++ [x]) h).

Definition unshift (a : loc) (x : jsstring) : M unit :=
  fun h => (tt, modify a (fun xs => x :: xs) h).

(* ===================================================================== *)
(** ** JSON values *)

#[local] Set Warnings "-register-all".

(** A number is an integer, or any other number, named by the text
    [JSON.stringify] writes for it: the route computes with integers only
    and hands provider values over unread. *)
Inductive json :=
| JNull
| JBool (b : bool)
| JNum (z : Z)
| JReal (text : jsstring)
| JStr (s : jsstring)
| JArr (xs : list json)
| JObj (fields : list (jsstring * json)).

(** How [JSON.stringify] writes a number: NaN becomes null. *)
Definition json_of_number (n : number) : json :=
  match n with Fin z => JNum z | NaN => JNull end.

Definition json_of_strings (xs : list jsstring) : json := JArr (map JStr xs).

(* ===================================================================== *)
(** ** The knowledge base *)

Inductive JobKey := hang_shelf | replace_tap_washer | paint_wall | fit_light_fixture.

Module Job.
Record Risk := {
  electrical : bool;
  plumbing : bool;
  structural : bool;
  workingAtHeight : bool }.

(** A job of the catalog; its four arrays are objects of the store. *)
Record t := {
  name : jsstring;
  baseDifficulty : Z;
  risk : Risk;
  steps : loc;
  tools : loc;
  materials : loc;
  safety : loc }.

(** The object literal of one job: its array literals are evaluated in
    the order they are written. *)
Definition literal (name : jsstring) (baseDifficulty : Z) (risk : Risk)
    (steps tools materials safety : list jsstring) : M t :=
  st <- alloc steps ;;
  to <- alloc tools ;;
  ma <- alloc materials ;;
  sa <- alloc safety ;;
  ret {| name := name; baseDifficulty := baseDifficulty; risk := risk;
         steps := st; tools := to; materials := ma; safety := sa |}.
End Job.

Definition no_risk : Job.Risk :=
  {| Job.electrical := false; Job.plumbing := false;
     Job.structural := false; Job.workingAtHeight := false |}.

(** Evaluation of the [KB] object literal when the module is loaded. *)
Definition KB_literal : M (JobKey -> Job.t) :=
  shelf <- Job.literal (js "Hang a Wall Shelf") 4 no_risk
    [ js "Locate studs or use appropriate wall anchors for your wall type.";
      js "Measure and mark level bracket positions.";
      js "Pre‑drill pilot holes.";
      js "Fix brackets securely.";
      js "Place shelf and secure per instructions.";
      js "Load gradually and check for level." ]
    [ js "Drill/driver"; js "Level"; js "Tape measure";
      js "Stud finder (or tapping method)"; js "Screwdriver" ]
    [ js "Wall plugs/anchors"; js "Screws"; js "Shelf + brackets" ]
    [ js "Wear eye protection when drilling.";
      js "Use anchors that match wall type and load." ] ;;
  washer <- Job.literal (js "Replace a Tap Washer") 5
    {| Job.electrical := false; Job.plumbing := true;
       Job.structural := false; Job.workingAtHeight := false |}
    [ js "Isolate water supply (shut‑off valve).";
      js "Open tap to relieve pressure.";
      js "Disassemble tap handle and bonnet.";
      js "Replace washer/O‑ring with matching size.";
      js "Reassemble and restore water.";
      js "Check for leaks." ]
    [ js "Adjustable spanner"; js "Screwdrivers"; js "Plumber’s grease";
      js "Allen keys" ]
    [ js "Correct size washer/O‑ring" ]
    [ js "Double‑check isolation valves.";
      js "Protect chrome surfaces to avoid scratching." ] ;;
  paint <- Job.literal (js "Paint an Interior Wall") 3 no_risk
    [ js "Fill holes and sand smooth; dust off.";
      js "Mask edges and cover floors/furniture.";
      js "Cut in edges with brush.";
      js "Roll first coat top‑to‑bottom.";
      js "Allow to dry; apply second coat.";
      js "Remove tape before fully dry for clean lines." ]
    [ js "Roller + tray"; js "Brush (2" ++ dquote ++ js ")";
      js "Filler + sanding block"; js "Dust sheet"; js "Masking tape" ]
    [ js "Emulsion paint"; js "Filler" ]
    [ js "Ventilate the room.";
      js "Use a stable step if needed; don’t overreach." ] ;;
  light <- Job.literal (js "Fit a New Ceiling Light Fixture") 7
    {| Job.electrical := true; Job.plumbing := false;
       Job.structural := false; Job.workingAtHeight := true |}
    [ js "Isolate circuit at consumer unit and verify dead.";
      js "Note existing wiring configuration.";
      js "Connect live/neutral/earth per manufacturer and local regs.";
      js "Mount fixture securely.";
      js "Restore power and test." ]
    [ js "Voltage tester"; js "Screwdrivers"; js "Wire strippers";
      js "Step ladder" ]
    [ js "Connector blocks/Wago"; js "Light fixture"; js "Fixings" ]
    [ js "If unsure about wiring identification or regs, use a qualified electrician.";
      js "Always prove dead before touching conductors." ] ;;
  ret (fun key =>
         match key with
         | hang_shelf => shelf
         | replace_tap_washer => washer
         | paint_wall => paint
         | fit_light_fixture => light
         end).

(** [KB[key]], and the store as the module leaves it once loaded. *)
Definition KB : JobKey -> Job.t := fst (KB_literal []).
Definition KB_heap : heap := snd (KB_literal []).

(** The keys of [KB] in the order they are declared. *)
Definition KB_keys : list JobKey :=
  [hang_shelf; replace_tap_washer; paint_wall; fit_light_fixture].

(** A store in which the catalog's arrays are as the module created them:
    whatever was allocated later comes after them. *)
Definition catalog_intact (h : heap) : Prop := exists later, h = KB_heap ++ later.

(* ===================================================================== *)
(** ** Inputs and outputs of the route *)

Local Open Scope Z_scope.

Record AssessmentInput := {
  description : jsstring;
  skillLevel : jsstring;
  tags : option (list jsstring);
  postcode : option jsstring }.

Inductive Decision := DIY | GetAPro.

Definition decision_text (d : Decision) : jsstring :=
  match d with DIY => js "DIY" | GetAPro => js "Get a Pro" end.

(** What [assessFromKB] returns: the five arrays are references. *)
Record AssessmentOutput := {
  decision : Decision;
  score : number;
  rationale : loc;
  steps : loc;
  tools : loc;
  materials : loc;
  safety : loc }.

(** The three skill levels of the interface, and how each is written. *)
Inductive SkillLevel := novice | intermediate | advanced.

Definition skill_text (s : SkillLevel) : jsstring :=
  match s with
  | novice => js "novice"
  | intermediate => js "intermediate"
  | advanced => js "advanced"
  end.

(** The ordinal the specification gives a skill level. *)
Definition ordinal (s : SkillLevel) : Z :=
  match s with novice => 1 | intermediate => 2 | advanced => 3 end.

(** [{ novice: 1, intermediate: 2, advanced: 3 }[key]]. *)
Definition skill_table (key : jsstring) : option Z :=
  if jseqb key (js "novice") then Some 1
  else if jseqb key (js "intermediate") then Some 2
  else if jseqb key (js "advanced") then Some 3
  else None.

(** [JSON.stringify] of an assessment: the arrays are read from the store. *)
Definition serialize (a : AssessmentOutput) : M json :=
  fun h =>
    (JObj [ (js "decision", JStr (decision_text (decision a)));
            (js "score", json_of_number (score a));
            (js "rationale", json_of_strings (deref h (rationale a)));
            (js "steps", json_of_strings (deref h (steps a)));
            (js "tools", json_of_strings (deref h (tools a)));
            (js "materials", json_of_strings (deref h (materials a)));
            (js "safety", json_of_strings (deref h (safety a))) ], h).

(** The body of a request as [request.json()] hands it over, an object:
    [description], [skillLevel] and [postcode] each hold a string or are
    missing, and [tags] holds an array of strings ([None] when it is
    missing or not an array). Fields of other types are outside the model. *)
Module Request.
Record Body := {
  description : option jsstring;
  skillLevel : option jsstring;
  tags : option (list jsstring);
  postcode : option jsstring }.
End Request.

Record Response := { body : json; status : Z }.

(** [NextResponse.json(value)], and with [{ status }]. *)
Definition NextResponse_json (value : json) (st : Z) : Response :=
  {| body := value; status := st |}.

(* ===================================================================== *)
(** ** The provider *)

(** The text of a completion, by what [JSON.parse] makes of it: a syntax
    error, or the value it denotes. *)
Inductive Content :=
| NotJson (text : jsstring)
| Json (value : json).

Definition content_truthy (c : Content) : bool :=
  match c with NotJson text => truthy text | Json _ => true end.

Definition JSON_parse (c : Content) : option json :=
  match c with NotJson _ => None | Json value => Some value end.

(** How the awaited call ends: it throws, or it yields
    [choices?.[0]?.message?.content], which may be undefined. *)
Inductive Completion :=
| Thrown
| Returned (content : option Content).

Record Env := {
  OPENAI_API_KEY : option jsstring;
  (* api key, model, system message, user message *)
  chat_completions_create : jsstring -> jsstring -> jsstring -> jsstring -> Completion }.

Definition systemPrompt : jsstring :=
  js "You are CheckaJob, a cautious UK DIY assessor. You must be practical and risk‑aware. Prefer safety and clarity over bravado. Output strict JSON with the exact keys: decision, score, rationale, steps, tools, materials, safety, durationMin, costLow, costHigh.".

Definition newline : jsstring := [10%N].

Definition userPrompt (input : AssessmentInput) : jsstring :=
  js "Description: " ++ description input ++ newline ++
  js "Skill level: " ++ skillLevel input ++ newline ++
  js "Photo tags (if any): " ++
    join (js ", ") (filter truthy (match tags input with Some t => t | None => [] end)) ++
  newline ++ js "Constraints: UK terminology, metric units, cautious tone." ++
  newline ++ js "Scoring: 0 (trivial) to 100 (expert). DIY only if appropriate for the provided skill level.".

(** The part of [POST] under [if (apiKey)]: the value it returns, if it
    returns one; [None] when control reaches the knowledge base. *)
Definition provider_attempt (env : Env) (input : AssessmentInput) : option json :=
  match OPENAI_API_KEY env with
  | Some apiKey =>
      if truthy apiKey then
        match chat_completions_create env apiKey (js "gpt-4.1-mini")
                systemPrompt (userPrompt input) with
        | Returned (Some content) =>
            if content_truthy content then JSON_parse content else None
        | Returned None => None
        | Thrown => None
        end
      else None
  | None => None
  end.

(** The object literal returned for an unknown job. *)
Definition unknown_job : json :=
  JObj [ (js "decision", JStr (js "Get a Pro"));
         (js "score", JNum 75);
         (js "rationale", json_of_strings
            [ js "Unable to match your description to our known jobs.";
              js "For ambiguous or unknown tasks, we err on the side of caution." ]);
         (js "steps", JArr []);
         (js "tools", JArr []);
         (js "materials", JArr []);
         (js "safety", json_of_strings
            [ js "Please consult a professional or provide more details to get specific advice." ]) ].

(* ===================================================================== *)
(** ** The classifier *)

Definition re_shelf : regex :=
  Alt (Lit (js "shelf")) (Alt (Lit (js "bracket")) (Lit (js "wall anchor"))).

Definition re_tap : regex :=
  Alt (Lit (js "tap"))
    (Alt (Lit (js "washer")) (Seq (Lit (js "o")) (Seq (Opt White) (Lit (js "ring"))))).

Definition re_paint : regex :=
  Alt (Lit (js "paint")) (Alt (Lit (js "roller")) (Lit (js "brush"))).

Definition re_light : regex :=
  Alt (Lit (js "light")) (Alt (Lit (js "fixture")) (Lit (js "ceiling"))).

(** The keyword pattern [inferJob] tests for a key. *)
Definition pattern (key : JobKey) : regex :=
  match key with
  | hang_shelf => re_shelf
  | replace_tap_washer => re_tap
  | paint_wall => re_paint
  | fit_light_fixture => re_light
  end.

(** The first key, in the order of [keys], whose pattern matches [text]:
    the rule of the specification. *)
Definition first_match (keys : list JobKey) (text : jsstring) : option JobKey :=
  find (fun key => String_match text (pattern key)) keys.

Section Route.

(** [String.prototype.toLowerCase]. *)
Variable toLowerCase : jsstring -> jsstring.

Definition text_of (input : AssessmentInput) : jsstring :=
  toLowerCase (description input ++ js " " ++
               join (js " ") (match tags input with Some t => t | None => [] end)).

Definition inferJob (input : AssessmentInput) : option JobKey :=
  let text := text_of input in
  if String_match text re_shelf then Some hang_shelf
  else if String_match text re_tap then Some replace_tap_washer
  else if String_match text re_paint then Some paint_wall
  else if String_match text re_light then Some fit_light_fixture
  else None.

(* ===================================================================== *)
(** ** The scorer *)

(** The body of [assessFromKB] once [job] is bound. *)
Definition assess (job : Job.t) (input : AssessmentInput) : M AssessmentOutput :=
  let skillNum := ToNumber (skill_table (skillLevel input)) in
  let score0 := Fin (Job.baseDifficulty job * 10) in
  rationale <- alloc [] ;;
  score1 <-
    (if Job.electrical (Job.risk job) then
       let score := num_add score0 (Fin 20) in
       push rationale (js "Electrical work can be dangerous and may require certification.") ;;;
       (if num_lt skillNum (Fin 3)
        then push rationale (js "You indicated you are not advanced; electrical tasks are high risk.")
        else ret tt) ;;;
       ret score
     else ret score0) ;;
  score2 <-
    (if Job.plumbing (Job.risk job) then
       let score := num_add score1 (Fin 10) in
       push rationale (js "Plumbing jobs risk leaks and water damage if done incorrectly.") ;;;
       ret score
     else ret score1) ;;
  score3 <-
    (if Job.workingAtHeight (Job.risk job) then
       let score := num_add score2 (Fin 10) in
       push rationale (js "Working at height increases the chance of falls.") ;;;
       ret score
     else ret score2) ;;
  let score :=
    Math_min (Fin 100)
      (Math_max (Fin 1) (num_sub score3 (num_mul (num_sub skillNum (Fin 1)) (Fin 10)))) in
  let decision := if num_gt score (Fin 60) then GetAPro else DIY in
  (match decision with
   | DIY => unshift rationale (js "This task appears feasible for your skill level.")
   | GetAPro => unshift rationale (js "This task may be too challenging or risky for you.")
   end) ;;;
  ret {| decision := decision; score := score; rationale := rationale;
         steps := Job.steps job; tools := Job.tools job;
         materials := Job.materials job; safety := Job.safety job |}.

Definition assessFromKB (input : AssessmentInput) (jobKey : JobKey) : M AssessmentOutput :=
  assess (KB jobKey) input.

(* ===================================================================== *)
(** ** The handler *)

Definition normalize (b : Request.Body) : AssessmentInput :=
  {| description := or_default (Request.description b) [];
     skillLevel := or_default (Request.skillLevel b) (js "novice");
     tags := Some (match Request.tags b with Some t => t | None => [] end);
     postcode := Request.postcode b |}.

(** The rest of [POST] from the comment that opens the knowledge-base path. *)
Definition knowledge_base (input : AssessmentInput) : M Response :=
  match inferJob input with
  | Some jobKey =>
      assessment <- assessFromKB input jobKey ;;
      value <- serialize assessment ;;
      ret (NextResponse_json value 200)
  | None => ret (NextResponse_json unknown_job 200)
  end.

Definition POST (env : Env) (b : Request.Body) : M Response :=
  let input := normalize b in
  match provider_attempt env input with
  | Some value => ret (NextResponse_json value 200)
  | None => knowledge_base input
  end.

End Route.

(* ===================================================================== *)
(** ** What the scorer computes, read off its code *)

Definition skillNum_of (input : AssessmentInput) : number :=
  ToNumber (skill_table (skillLevel input)).

(** The sum of the penalties of the flags that are set. *)
Definition penalty (r : Job.Risk) : Z :=
  (if Job.electrical r then 20 else 0) +
  (if Job.plumbing r then 10 else 0) +
  (if Job.workingAtHeight r then 10 else 0).

(** The score before the skill discount: the three conditional additions. *)
Definition risk_score (job : Job.t) : number :=
  let s0 := Fin (Job.baseDifficulty job * 10) in
  let s1 := if Job.electrical (Job.risk job) then num_add s0 (Fin 20) else s0 in
  let s2 := if Job.plumbing (Job.risk job) then num_add s1 (Fin 10) else s1 in
  if Job.workingAtHeight (Job.risk job) then num_add s2 (Fin 10) else s2.

Definition score_of (job : Job.t) (input : AssessmentInput) : number :=
  Math_min (Fin 100)
    (Math_max (Fin 1)
       (num_sub (risk_score job)
                (num_mul (num_sub (skillNum_of input) (Fin 1)) (Fin 10)))).

Definition decision_of (s : number) : Decision :=
  if num_gt s (Fin 60) then GetAPro else DIY.

Definition feasible : jsstring :=
  js "This task appears feasible for your skill level.".
Definition too_risky : jsstring :=
  js "This task may be too challenging or risky for you.".

Definition verdict (d : Decision) : jsstring :=
  match d with DIY => feasible | GetAPro => too_risky end.

(** The sentences pushed for the flags, in the order of the pushes. *)
Definition reasons (job : Job.t) (input : AssessmentInput) : list jsstring :=
  (if Job.electrical (Job.risk job) then
     js "Electrical work can be dangerous and may require certification." ::
     (if num_lt (skillNum_of input) (Fin 3)
      then [js "You indicated you are not advanced; electrical tasks are high risk."]
      else [])
   else []) ++
  (if Job.plumbing (Job.risk job)
   then [js "Plumbing jobs risk leaks and water damage if done incorrectly."] else []) ++
  (if Job.workingAtHeight (Job.risk job)
   then [js "Working at height increases the chance of falls."] else []).

(** An input of the interface: its skill level is one of the three. *)
Definition input_with (d : jsstring) (s : SkillLevel) (t : option (list jsstring))
    (p : option jsstring) : AssessmentInput :=
  {| description := d; skillLevel := skill_text s; tags := t; postcode := p |}.

(** The positions at which [w] starts in [t]. *)
Fixpoint occurrences (w t : jsstring) (at_ : nat) : list nat :=
  (match strip_prefix w t with Some _ => [at_] | None => [] end) ++
  match t with
  | [] => []
  | _ :: t' => occurrences w t' (S at_)
  end.

(* ===================================================================== *)
(** ** The shape of an assessment, as the interface declares it *)

Fixpoint field (key : jsstring) (fields : list (jsstring * json)) : option json :=
  match fields with
  | [] => None
  | (k, v) :: rest => if jseqb k key then Some v else field key rest
  end.

Definition is_string (v : json) : bool :=
  match v with JStr _ => true | _ => false end.

Definition is_number (v : json) : bool :=
  match v with JNum _ | JReal _ => true | _ => false end.

Definition is_string_array (v : option json) : bool :=
  match v with Some (JArr xs) => forallb is_string xs | _ => false end.

Definition is_decision (v : option json) : bool :=
  match v with
  | Some (JStr s) => jseqb s (js "DIY") || jseqb s (js "Get a Pro")
  | _ => false
  end.

Definition is_optional_number (v : option json) : bool :=
  match v with None => true | Some x => is_number x end.

(** [value] has the fields of [interface AssessmentOutput], with their types. *)
Definition has_AssessmentOutput_shape (value : json) : bool :=
  match value with
  | JObj fs =>
      is_decision (field (js "decision") fs) &&
      match field (js "score") fs with Some x => is_number x | None => false end &&
      is_string_array (field (js "rationale") fs) &&
      is_string_array (field (js "steps") fs) &&
      is_string_array (field (js "tools") fs) &&
      is_string_array (field (js "materials") fs) &&
      is_string_array (field (js "safety") fs) &&
      is_optional_number (field (js "durationMin") fs) &&
      is_optional_number (field (js "costLow") fs) &&
      is_optional_number (field (js "costHigh") fs)
  | _ => false
  end.

(** The field [key] of the object a response carries. *)
Definition response_field (key : string) (r : Response) : option json :=
  match body r with JObj fs => field (js key) fs | _ => None end.

(* ===================================================================== *)
(** ** Concrete environments and requests *)

(** No provider is configured. *)
Definition no_provider : Env :=
  {| OPENAI_API_KEY := None;
     chat_completions_create := fun _ _ _ _ => Thrown |}.

(** A configured provider that answers every request with [content]. *)
Definition provider_saying (content : Content) : Env :=
  {| OPENAI_API_KEY := Some (js "sk-test");
     chat_completions_create := fun _ _ _ _ => Returned (Some content) |}.

Definition request (d : string) (skill : option jsstring) : Request.Body :=
  {| Request.description := Some (js d); Request.skillLevel := skill;
     Request.tags := None; Request.postcode := None |}.

(* ===================================================================== *)
(** ** The keywords of the classifier *)

(** What each pattern looks for, as substrings of the text. The pattern
    [o\s?ring] stands for oring and, for each whitespace character, for o
    and ring with that character between. *)
Definition o_space_ring (text : jsstring) : Prop :=
  exists c, is_space c = true /\ contains (js "o" ++ [c] ++ js "ring") text.

Definition shelf_words (text : jsstring) : Prop :=
  contains (js "shelf") text \/ contains (js "bracket") text \/
  contains (js "wall anchor") text.

Definition tap_words (text : jsstring) : Prop :=
  contains (js "tap") text \/ contains (js "washer") text \/
  contains (js "oring") text \/ o_space_ring text.

Definition paint_words (text : jsstring) : Prop :=
  contains (js "paint") text \/ contains (js "roller") text \/
  contains (js "brush") text.

Definition light_words (text : jsstring) : Prop :=
  contains (js "light") text \/ contains (js "fixture") text \/
  contains (js "ceiling") text.

(* ===================================================================== *)
(** ** The page: [src/app/page.tsx] *)

(** [s.trim()]: the whitespace it removes is the set [\s] accepts. *)
Fixpoint trim_start (s : jsstring) : jsstring :=
  match s with
  | c :: s' => if is_space c then trim_start s' else s
  | [] => []
  end.

Definition String_trim (s : jsstring) : jsstring :=
  rev (trim_start (rev (trim_start s))).

(** [s.split(sep)] for a separator of one character. *)
Fixpoint String_split (sep : N) (s : jsstring) : list jsstring :=
  match s with
  | [] => [[]]
  | c :: s' =>
      if (c =? sep)%N then [] :: String_split sep s'
      else match String_split sep s' with
           | piece :: pieces => (c :: piece) :: pieces
           | [] => [[c]]
           end
  end.

Definition comma : N := 44%N.

(** The state of the form: what the four inputs hold. The select offers
    the three skill levels only. *)
Module Form.
Record t := {
  description : jsstring;
  skillLevel : SkillLevel;
  tags : jsstring;
  postcode : jsstring }.
End Form.

(** [tags.split(',').map((t) => t.trim()).filter(Boolean)]. *)
Definition parse_tags (tags : jsstring) : list jsstring :=
  filter truthy (map String_trim (String_split comma tags)).

(** The object [handleSubmit] stringifies, as the route reads it back: a
    property that is [undefined] is not written. *)
Definition submitted_body (f : Form.t) : Request.Body :=
  {| Request.description := Some (Form.description f);
     Request.skillLevel := Some (skill_text (Form.skillLevel f));
     Request.tags := Some (parse_tags (Form.tags f));
     Request.postcode :=
       (let p := String_trim (Form.postcode f) in
        if truthy p then Some p else None) |}.

(** A promise that has settled: its value, or the message of the error. *)
Inductive Settled (A : Type) :=
| Fulfilled (value : A)
| RejectedWith (message : jsstring).

Arguments Fulfilled {A} value.
Arguments RejectedWith {A} message.

(** What the page reads of a response: [res.ok], [await res.text()] and
    [await res.json()]. *)
Module Res.
Record t := {
  ok : bool;
  text : Settled jsstring;
  json : Settled json }.
End Res.

(** The three pieces of state [handleSubmit] sets. *)
Record Page := {
  loading : bool;
  error : option jsstring;
  result : option json }.

(** [setResult(data)]: the state is null when the data is. *)
Definition nullable (data : json) : option json :=
  match data with JNull => None | _ => Some data end.

(** The state once [handleSubmit] has run to its end. *)
Definition handleSubmit (fetch : Request.Body -> Settled Res.t) (f : Form.t) : Page :=
  match fetch (submitted_body f) with
  | Fulfilled res =>
      if negb (Res.ok res) then
        match Res.text res with
        | Fulfilled text =>
            {| loading := false;
               error := Some (if truthy text then text else js "Failed to assess job");
               result := None |}
        | RejectedWith message =>
            {| loading := false; error := Some message; result := None |}
        end
      else
        match Res.json res with
        | Fulfilled data =>
            {| loading := false; error := None; result := nullable data |}
        | RejectedWith message =>
            {| loading := false; error := Some message; result := None |}
        end
  | RejectedWith message =>
      {| loading := false; error := Some message; result := None |}
  end.

(** The route behind [fetch] when the network delivers: the response is
    ok for a status from 200 to 299, and its body reads back as the value
    the route serialized. [stringify] is [JSON.stringify]. *)
Definition route_fetch (toLowerCase : jsstring -> jsstring)
    (stringify : json -> jsstring) (env : Env) (h : heap)
    (b : Request.Body) : Settled Res.t :=
  let r := fst (POST toLowerCase env b h) in
  Fulfilled {| Res.ok := (200 <=? status r) && (status r <=? 299);
               Res.text := Fulfilled (stringify (body r));
               Res.json := Fulfilled (body r) |}.

(** A tag as the page sends it: not empty, no comma in it, no whitespace
    at either end. *)
Definition clean_tag (t : jsstring) : Prop :=
  t <> [] /\ ~ In comma t /\
  (forall c rest, t = c :: rest -> is_space c = false) /\
  (forall c front, t = front ++ [c] -> is_space c = false).

(* ===================================================================== *)
(** * Properties *)

(** ** Strings and patterns *)

Lemma jseqb_eq (a b : jsstring) : jseqb a b = true <-> a = b.
Proof.
  revert b; induction a as [|x a IH]; intros [|y b]; simpl; split;
    try congruence; try reflexivity.
  - intros H. apply andb_true_iff in H as [Hx Hab].
    apply N.eqb_eq in Hx. apply IH in Hab. congruence.
  - intros H. injection H as -> ->. rewrite N.eqb_refl. simpl. now apply IH.
Qed.

Lemma strip_prefix_app (p rest : jsstring) : strip_prefix p (p ++ rest) = Some rest.
Proof.
  induction p as [|c p IH]; simpl; [reflexivity|].
  now rewrite N.eqb_refl.
Qed.

Lemma strip_prefix_inv (p s rest : jsstring) :
  strip_prefix p s = Some rest -> s = p ++ rest.
Proof.
  revert s; induction p as [|c p IH]; intros s; simpl.
  - congruence.
  - destruct s as [|d s]; [discriminate|].
    destruct (N.eqb_spec c d) as [->|]; [|discriminate].
    intros H. apply IH in H. now subst.
Qed.

(** The matcher finds exactly the splits of the text whose first part is in
    the language of the pattern. *)
Lemma match_here_spec (r : regex) :
  forall s rest, In rest (match_here r s) <-> exists m, Matches r m /\ s = m ++ rest.
Proof.
  induction r as [p| |r IH|r1 IH1 r2 IH2|r1 IH1 r2 IH2]; intros s rest; simpl.
  - destruct (strip_prefix p s) as [rest'|] eqn:E; simpl; split.
    + intros [<-|[]]. exists p. split; [constructor|]. now apply strip_prefix_inv.
    + intros (m & Hm & ->). inversion Hm; subst.
      rewrite strip_prefix_app in E. left. congruence.
    + intros [].
    + intros (m & Hm & ->). inversion Hm; subst.
      rewrite strip_prefix_app in E. discriminate.
  - destruct s as [|c s]; simpl; split.
    + intros [].
    + intros (m & Hm & E). inversion Hm; subst. discriminate.
    + destruct (is_space c) eqn:Hc; simpl; [|intros []].
      intros [<-|[]]. exists [c]. split; [now constructor|reflexivity].
    + intros (m & Hm & E). inversion Hm as [ |c' Hc'| | | | | ]; subst.
      simpl in E. injection E as -> ->. rewrite Hc'. now left.
  - rewrite in_app_iff, IH. simpl. split.
    + intros [(m & Hm & ->)|[<-|[]]].
      * exists m. split; [now apply MOptSome|reflexivity].
      * exists []. split; [apply MOptNone|reflexivity].
    + intros (m & Hm & ->). inversion Hm; subst.
      * right. now left.
      * left. now exists m.
  - rewrite in_flat_map. split.
    + intros (mid & H1 & H2). apply IH1 in H1 as (m1 & Hm1 & ->).
      apply IH2 in H2 as (m2 & Hm2 & ->).
      exists (m1 ++ m2). split; [now constructor|now rewrite app_assoc].
    + intros (m & Hm & ->). inversion Hm; subst.
      exists (m2 ++ rest). split.
      * apply IH1. exists m1. split; [assumption|now rewrite app_assoc].
      * apply IH2. now exists m2.
  - rewrite in_app_iff, IH1, IH2. split.
    + intros [(m & Hm & ->)|(m & Hm & ->)]; exists m; split;
        try reflexivity; [now apply MAltL|now apply MAltR].
    + intros (m & Hm & ->). inversion Hm; subst; [left|right]; now exists m.
Qed.

(** [text.match(r)] succeeds exactly when some run of the text is in the
    language of [r]: there is no anchoring of any kind. *)
Lemma String_match_spec (r : regex) (text : jsstring) :
  String_match text r = true <->
  exists pre m post, text = pre ++ m ++ post /\ Matches r m.
Proof.
  induction text as [|c text IH]; simpl.
  - destruct (match_here r []) as [|rest l] eqn:E; split; try reflexivity.
    + intros H; discriminate.
    + intros (pre & m & post & Ht & Hm).
      destruct pre; [|discriminate]. simpl in Ht.
      assert (Hin : In post (match_here r [])).
      { apply match_here_spec. now exists m. }
      rewrite E in Hin. destruct Hin.
    + intros _. assert (Hin : In rest (match_here r [])) by (rewrite E; now left).
      apply match_here_spec in Hin as (m & Hm & Hs).
      exists [], m, rest. now split.
  - destruct (match_here r (c :: text)) as [|rest l] eqn:E.
    + rewrite IH. split.
      * intros (pre & m & post & -> & Hm). exists (c :: pre), m, post. now split.
      * intros (pre & m & post & Ht & Hm). destruct pre as [|c' pre].
        -- simpl in Ht. assert (Hin : In post (match_here r (c :: text))).
           { apply match_here_spec. now exists m. }
           rewrite E in Hin. destruct Hin.
        -- injection Ht as -> ->. now exists pre, m, post.
    + split; [|reflexivity]. intros _.
      assert (Hin : In rest (match_here r (c :: text))) by (rewrite E; now left).
      apply match_here_spec in Hin as (m & Hm & Hs).
      exists [], m, rest. now split.
Qed.

(** A keyword that is an alternative of the pattern, found anywhere in the
    text, makes the pattern match. *)
Lemma String_match_contains (r : regex) (w text : jsstring) :
  Matches r w -> contains w text -> String_match text r = true.
Proof.
  intros Hm (pre & post & ->). apply String_match_spec. now exists pre, w, post.
Qed.

(** ** The store *)

Lemma modify_fresh f (h : heap) (xs : list jsstring) :
  modify (List.length h) f (h ++ [xs]) = h ++ [f xs].
Proof. induction h as [|a h IH]; simpl; [reflexivity|now rewrite IH]. Qed.

Lemma deref_fresh (h : heap) (xs : list jsstring) :
  deref (h ++ [xs]) (List.length h) = xs.
Proof. unfold deref. rewrite app_nth2, Nat.sub_diag; [reflexivity|lia]. Qed.

Lemma deref_old (h later : heap) (l : loc) :
  (l < List.length h)%nat -> deref (h ++ later) l = deref h l.
Proof. intros Hl. unfold deref. now apply app_nth1. Qed.

(** The catalog's references all name arrays of the initial store. *)
Lemma KB_refs_allocated (key : JobKey) :
  (Job.steps (KB key) < List.length KB_heap)%nat /\
  (Job.tools (KB key) < List.length KB_heap)%nat /\
  (Job.materials (KB key) < List.length KB_heap)%nat /\
  (Job.safety (KB key) < List.length KB_heap)%nat.
Proof. destruct key; vm_compute; repeat split; lia. Qed.

(** ** One run of the scorer *)

Local Arguments js : simpl never.

(** [assess] allocates one array, the rationale, fills it, and returns the
    references of the job's own arrays. *)
Lemma assess_run (job : Job.t) (input : AssessmentInput) (h : heap) :
  assess job input h =
  ({| decision := decision_of (score_of job input);
      score := score_of job input;
      rationale := List.length h;
      steps := Job.steps job; tools := Job.tools job;
      materials := Job.materials job; safety := Job.safety job |},
   h ++ [verdict (decision_of (score_of job input)) :: reasons job input]).
Proof.
  unfold assess, score_of, risk_score, reasons, decision_of, verdict.
  fold (skillNum_of input).
  destruct job as [n bd [e p s w] st to ma sa].
  cbn [Job.risk Job.electrical Job.plumbing Job.workingAtHeight
       Job.baseDifficulty Job.steps Job.tools Job.materials Job.safety].
  unfold bind, alloc, push, unshift, ret, too_risky, feasible.
  destruct e, p, w; destruct (num_lt (skillNum_of input) (Fin 3));
    repeat rewrite modify_fresh;
    (match goal with |- context [if ?c then GetAPro else DIY] => destruct c end);
    cbv beta iota; repeat rewrite modify_fresh; cbn [app]; reflexivity.
Qed.

Lemma skill_table_valid (s : SkillLevel) : skill_table (skill_text s) = Some (ordinal s).
Proof. destruct s; reflexivity. Qed.

Lemma risk_score_Fin (job : Job.t) :
  risk_score job = Fin (Job.baseDifficulty job * 10 + penalty (Job.risk job)).
Proof.
  unfold risk_score, penalty.
  destruct (Job.electrical _), (Job.plumbing _), (Job.workingAtHeight _);
    simpl; f_equal; lia.
Qed.

(** With a skill level of the interface the score is a number, never NaN. *)
Lemma score_of_valid (job : Job.t) d (s : SkillLevel) t p :
  score_of job (input_with d s t p) =
  Fin (Z.min 100 (Z.max 1 (Job.baseDifficulty job * 10 + penalty (Job.risk job)
                           - (ordinal s - 1) * 10))).
Proof.
  unfold score_of, skillNum_of, input_with. cbn [skillLevel].
  rewrite skill_table_valid, risk_score_Fin. reflexivity.
Qed.

(** ** The scorer *)

(** The scenarios of the specification. *)
Example shelf_novice h :
  fst (assessFromKB (input_with (js "I need to hang a shelf in my bedroom") novice (Some []) None)
         hang_shelf h) =
  {| decision := DIY; score := Fin 40; rationale := List.length h;
     steps := 0%nat; tools := 1%nat; materials := 2%nat; safety := 3%nat |}.
Proof. unfold assessFromKB. rewrite assess_run. reflexivity. Qed.

Example light_novice h :
  fst (assessFromKB (input_with (js "replace a ceiling light fixture") novice None None)
         fit_light_fixture h) =
  {| decision := GetAPro; score := Fin 100; rationale := List.length h;
     steps := 12%nat; tools := 13%nat; materials := 14%nat; safety := 15%nat |}.
Proof. unfold assessFromKB. rewrite assess_run. reflexivity. Qed.

Example light_advanced h :
  fst (assessFromKB (input_with (js "replace a ceiling light fixture") advanced None None)
         fit_light_fixture h) =
  {| decision := GetAPro; score := Fin 80; rationale := List.length h;
     steps := 12%nat; tools := 13%nat; materials := 14%nat; safety := 15%nat |}.
Proof. unfold assessFromKB. rewrite assess_run. reflexivity. Qed.

(** C1. For every job of the catalog and each of the three skill levels,
    the score is baseDifficulty * 10, plus 20 when the electrical flag is
    set, plus 10 for plumbing, plus 10 for workingAtHeight, minus
    (skillNum - 1) * 10 with novice = 1, intermediate = 2, advanced = 3,
    and the result clamped to the interval from 1 to 100. *)
Theorem C1_score_formula (key : JobKey) (s : SkillLevel)
    (d : jsstring) (t : option (list jsstring)) (p : option jsstring) (h : heap) :
  let job := KB key in
  score (fst (assessFromKB (input_with d s t p) key h)) =
  Fin (Z.min 100 (Z.max 1
         (Job.baseDifficulty job * 10
          + (if Job.electrical (Job.risk job) then 20 else 0)
          + (if Job.plumbing (Job.risk job) then 10 else 0)
          + (if Job.workingAtHeight (Job.risk job) then 10 else 0)
          - (ordinal s - 1) * 10))).
Proof.
  intros job. unfold assessFromKB. rewrite assess_run. cbn [fst score].
  fold job. rewrite score_of_valid. unfold penalty. do 3 f_equal. lia.
Qed.

(** C2. For every job of the catalog and each of the three skill levels:
    the decision is Get a Pro exactly when the score exceeds 60 and DIY
    exactly when it is at most 60; the first sentence of the rationale is
    the feasible sentence when the decision is DIY and the too-challenging
    sentence otherwise, and the two sentences differ. *)
Theorem C2_decision_threshold (key : JobKey) (s : SkillLevel)
    (d : jsstring) (t : option (list jsstring)) (p : option jsstring) (h : heap) :
  let (out, h') := assessFromKB (input_with d s t p) key h in
  exists z : Z,
    score out = Fin z /\
    (decision out = GetAPro <-> z > 60) /\
    (decision out = DIY <-> z <= 60) /\
    nth_error (deref h' (rationale out)) 0 =
      Some (match decision out with
            | DIY => js "This task appears feasible for your skill level."
            | GetAPro => js "This task may be too challenging or risky for you."
            end) /\
    js "This task appears feasible for your skill level." <>
    js "This task may be too challenging or risky for you.".
Proof.
  unfold assessFromKB. rewrite assess_run.
  rewrite score_of_valid.
  set (z := Z.min 100 _). exists z. cbn [score decision rationale].
  rewrite deref_fresh. unfold decision_of, num_gt.
  split; [reflexivity|].
  destruct (Z.gtb_spec z 60) as [Hz|Hz]; cbn [verdict nth_error];
    repeat split; try reflexivity; try lia; try discriminate;
    try (intros _; lia); try (intros; exfalso; lia);
    intros E; apply (f_equal (fun l => nth 11 l 0%N)) in E; vm_compute in E; discriminate.
Qed.

(** C3. For every baseDifficulty from 1 to 10, every combination of the
    four risk flags and each of the three skill levels, the score is an
    integer between 1 and 100. *)
Theorem C3_score_range (job : Job.t) (s : SkillLevel)
    (d : jsstring) (t : option (list jsstring)) (p : option jsstring) (h : heap) :
  1 <= Job.baseDifficulty job <= 10 ->
  exists z : Z, score (fst (assess job (input_with d s t p) h)) = Fin z /\ 1 <= z <= 100.
Proof.
  intros _. rewrite assess_run. cbn [fst score]. rewrite score_of_valid.
  eexists. split; [reflexivity|]. lia.
Qed.

Lemma C3_score_range_witness :
  1 <= 7 <= 10 /\
  exists z : Z,
    score (fst (assess (KB fit_light_fixture) (input_with [] novice None None) KB_heap)) = Fin z /\
    1 <= z <= 100.
Proof.
  split; [lia|].
  apply (C3_score_range (KB fit_light_fixture) novice [] None None KB_heap).
  vm_compute. split; discriminate.
Defined.

(** C9. Two jobs that differ in the structural flag only are assessed
    alike: same decision, score, references and store, whatever the input. *)
Theorem C9_structural_ignored (n : jsstring) (bd : Z) (e p s1 s2 w : bool)
    (st to ma sa : loc) (input : AssessmentInput) (h : heap) :
  assess {| Job.name := n; Job.baseDifficulty := bd;
            Job.risk := {| Job.electrical := e; Job.plumbing := p;
                           Job.structural := s1; Job.workingAtHeight := w |};
            Job.steps := st; Job.tools := to; Job.materials := ma; Job.safety := sa |}
         input h =
  assess {| Job.name := n; Job.baseDifficulty := bd;
            Job.risk := {| Job.electrical := e; Job.plumbing := p;
                           Job.structural := s2; Job.workingAtHeight := w |};
            Job.steps := st; Job.tools := to; Job.materials := ma; Job.safety := sa |}
         input h.
Proof. rewrite !assess_run. reflexivity. Qed.

(** ** Sharing between an assessment and the catalog *)

(** A run of the scorer leaves the catalog's arrays as they were. *)
Lemma assess_keeps_catalog (job : Job.t) (input : AssessmentInput) (h : heap) :
  catalog_intact h -> catalog_intact (snd (assess job input h)).
Proof.
  intros [later ->]. rewrite assess_run. cbn [snd].
  rewrite <- app_assoc. now eexists.
Qed.

(** C8, as the code has it. For every job of the catalog and each skill
    level, the steps, tools, materials and safety of the assessment are
    the very array objects of the catalog entry: the same references, not
    copies; read in the store the scorer leaves, each holds, element for
    element and in order, what the catalog entry was created with. *)
Theorem C8_catalog_arrays_shared (key : JobKey) (s : SkillLevel)
    (d : jsstring) (t : option (list jsstring)) (p : option jsstring) (h : heap) :
  catalog_intact h ->
  let (out, h') := assessFromKB (input_with d s t p) key h in
  (steps out = Job.steps (KB key) /\
   tools out = Job.tools (KB key) /\
   materials out = Job.materials (KB key) /\
   safety out = Job.safety (KB key)) /\
  (deref h' (steps out) = deref KB_heap (Job.steps (KB key)) /\
   deref h' (tools out) = deref KB_heap (Job.tools (KB key)) /\
   deref h' (materials out) = deref KB_heap (Job.materials (KB key)) /\
   deref h' (safety out) = deref KB_heap (Job.safety (KB key))) /\
  catalog_intact h'.
Proof.
  intros [later ->]. unfold assessFromKB. rewrite assess_run.
  cbn [steps tools materials safety].
  destruct (KB_refs_allocated key) as (H1 & H2 & H3 & H4).
  rewrite <- app_assoc.
  repeat split; try (now apply deref_old).
  now eexists.
Qed.

Lemma C8_catalog_arrays_shared_witness :
  catalog_intact KB_heap /\
  let (out, h') := assessFromKB (input_with [] novice None None) hang_shelf KB_heap in
  (steps out = Job.steps (KB hang_shelf) /\
   tools out = Job.tools (KB hang_shelf) /\
   materials out = Job.materials (KB hang_shelf) /\
   safety out = Job.safety (KB hang_shelf)) /\
  (deref h' (steps out) = deref KB_heap (Job.steps (KB hang_shelf)) /\
   deref h' (tools out) = deref KB_heap (Job.tools (KB hang_shelf)) /\
   deref h' (materials out) = deref KB_heap (Job.materials (KB hang_shelf)) /\
   deref h' (safety out) = deref KB_heap (Job.safety (KB hang_shelf))) /\
  catalog_intact h'.
Proof.
  assert (H : catalog_intact KB_heap) by (exists []; now rewrite app_nil_r).
  split; [exact H|].
  exact (C8_catalog_arrays_shared hang_shelf novice [] None None H).
Defined.

(** C8, as the specification states it, fails: the arrays of an assessment
    are not new. For the shelf job the assessment's steps is the reference
    the catalog holds, and an element pushed through the assessment shows
    up in the catalog's steps. *)
Lemma C8_output_aliases_catalog :
  let (out, h1) := assessFromKB (input_with [] novice None None) hang_shelf KB_heap in
  steps out = Job.steps (KB hang_shelf) /\
  let (_, h2) := push (steps out) (js "one more step") h1 in
  deref h2 (Job.steps (KB hang_shelf)) =
  deref KB_heap (Job.steps (KB hang_shelf)) ++ [js "one more step"].
Proof. vm_compute. split; reflexivity. Qed.

(** ** The classifier *)

Lemma find_first {A} (f : A -> bool) (l : list A) (x : A) :
  find f l = Some x <->
  exists earlier later,
    l = earlier ++ x :: later /\ f x = true /\
    forall y, In y earlier -> f y = false.
Proof.
  induction l as [|a l IH]; simpl.
  - split; [discriminate|]. intros (e & ? & E & _). now destruct e.
  - destruct (f a) eqn:Fa.
    + split.
      * intros [= ->]. exists [], l. repeat split; [assumption|intros ? []].
      * intros ([|b e] & later & E & Fx & He).
        -- now injection E as ->.
        -- injection E as -> ->. rewrite (He b) in Fa; [discriminate|now left].
    + rewrite IH. split.
      * intros (e & later & -> & Fx & He). exists (a :: e), later.
        repeat split; [assumption|]. intros y [<-|Hy]; [assumption|now apply He].
      * intros ([|b e] & later & E & Fx & He).
        -- injection E as -> ->. congruence.
        -- injection E as -> ->. exists e, later.
           repeat split; [assumption|]. intros y Hy. apply He. now right.
Qed.

Lemma find_none_iff {A} (f : A -> bool) (l : list A) :
  find f l = None <-> forall y, In y l -> f y = false.
Proof.
  induction l as [|a l IH]; simpl.
  - split; [intros _ ? []|reflexivity].
  - destruct (f a) eqn:Fa.
    + split; [discriminate|]. intros H. rewrite (H a) in Fa; [discriminate|now left].
    + rewrite IH. split.
      * intros H y [<-|Hy]; [assumption|now apply H].
      * intros H y Hy. apply H. now right.
Qed.

Lemma KB_keys_complete (key : JobKey) : In key KB_keys.
Proof. destruct key; simpl; tauto. Qed.

Lemma split_at {A} (n : nat) (pre rest l : list A) :
  List.length pre = n -> pre ++ rest = l -> pre = firstn n l /\ rest = skipn n l.
Proof.
  revert pre l; induction n as [|n IH]; intros [|a pre] l Hn E;
    try discriminate; subst l; simpl.
  - now split.
  - injection Hn as Hn. destruct (IH pre (pre ++ rest) Hn eq_refl) as [E1 E2].
    split; [now f_equal|assumption].
Qed.

(** Every place where a word starts is in the list [occurrences] builds. *)
Lemma occurrences_complete (w pre post : jsstring) (at_ : nat) :
  In (at_ + List.length pre)%nat (occurrences w (pre ++ w ++ post) at_).
Proof.
  revert at_; induction pre as [|c pre IH]; intros at_.
  - simpl app. destruct (w ++ post) eqn:E; simpl; rewrite <- E;
      rewrite strip_prefix_app, Nat.add_0_r; now left.
  - simpl. apply in_or_app. right.
    replace (at_ + S (List.length pre))%nat with (S at_ + List.length pre)%nat by lia.
    apply IH.
Qed.

Section Classifier.

Variable toLowerCase : jsstring -> jsstring.

Lemma inferJob_first_match (input : AssessmentInput) :
  inferJob toLowerCase input = first_match KB_keys (text_of toLowerCase input).
Proof.
  unfold inferJob, first_match, KB_keys. cbn [find pattern].
  set (text := text_of toLowerCase input).
  destruct (String_match text re_shelf); [reflexivity|].
  destruct (String_match text re_tap); [reflexivity|].
  destruct (String_match text re_paint); [reflexivity|].
  destruct (String_match text re_light); reflexivity.
Qed.

Lemma inferJob_none (input : AssessmentInput) :
  inferJob toLowerCase input = None <->
  forall key, String_match (text_of toLowerCase input) (pattern key) = false.
Proof.
  rewrite inferJob_first_match. unfold first_match. rewrite find_none_iff.
  split; intros H key; [apply H, KB_keys_complete|intros _; apply H].
Qed.

(** C6. The classifier returns the key of the first entry, in the order
    the catalog declares them (hang_shelf, replace_tap_washer, paint_wall,
    fit_light_fixture), whose keyword pattern matches the lowercased
    description followed by a space and the space-joined tags: a key is
    returned exactly when its pattern matches and the pattern of no key
    declared earlier does (the order of [KB_keys] is the order in which the
    catalog literal creates the entries' arrays). In particular a text that contains both shelf
    and tap is classified as hang_shelf. *)
Theorem C6_first_match_in_declaration_order (input : AssessmentInput) :
  KB_keys = [hang_shelf; replace_tap_washer; paint_wall; fit_light_fixture] /\
  map (fun key => Job.steps (KB key)) KB_keys = [0; 4; 8; 12]%nat /\
  inferJob toLowerCase input = first_match KB_keys (text_of toLowerCase input) /\
  (forall key : JobKey,
     inferJob toLowerCase input = Some key <->
     exists earlier later,
       KB_keys = earlier ++ key :: later /\
       String_match (text_of toLowerCase input) (pattern key) = true /\
       forall k, In k earlier ->
                 String_match (text_of toLowerCase input) (pattern k) = false) /\
  (contains (js "shelf") (text_of toLowerCase input) ->
   contains (js "tap") (text_of toLowerCase input) ->
   inferJob toLowerCase input = Some hang_shelf).
Proof.
  split; [reflexivity|]. split; [reflexivity|].
  split; [apply inferJob_first_match|]. split.
  - intros key. rewrite inferJob_first_match. unfold first_match.
    exact (find_first
             (fun k => String_match (text_of toLowerCase input) (pattern k))
             KB_keys key).
  - intros Hshelf _. unfold inferJob.
    rewrite (@String_match_contains re_shelf (js "shelf")); trivial.
    apply MAltL, MLit.
Qed.

(** C10. The patterns match plain substrings and the tap pattern is tested
    before the paint pattern: whenever the text contains tap anywhere and
    the shelf pattern does not match, the result is replace_tap_washer. For
    the description [use masking tape before you paint the wall], which
    lowercasing leaves as it is, tap occurs once, inside the word tape; the
    paint pattern matches the text as well; and the classifier returns
    replace_tap_washer, not paint_wall. *)
Theorem C10_tape_classified_as_tap :
  let input := {| description := js "use masking tape before you paint the wall";
                  skillLevel := js "novice"; tags := Some []; postcode := None |} in
  let text := js "use masking tape before you paint the wall " in
  toLowerCase text = text ->
  (forall other : AssessmentInput,
     contains (js "tap") (text_of toLowerCase other) ->
     String_match (text_of toLowerCase other) re_shelf = false ->
     inferJob toLowerCase other = Some replace_tap_washer) /\
  text_of toLowerCase input = text /\
  (forall pre post, text = pre ++ js "tap" ++ post ->
     pre = js "use masking " /\ post = js "e before you paint the wall ") /\
  String_match (text_of toLowerCase input) re_paint = true /\
  inferJob toLowerCase input = Some replace_tap_washer.
Proof.
  intros input text Hlower.
  assert (Htext : text_of toLowerCase input = text).
  { unfold text_of. transitivity (toLowerCase text); [|exact Hlower].
    f_equal. }
  split; [|split; [exact Htext|split; [|split]]].
  - intros other Htap Hshelf. unfold inferJob. rewrite Hshelf.
    rewrite (@String_match_contains re_tap (js "tap")); trivial.
    apply MAltL, MLit.
  - intros pre post E.
    pose proof (occurrences_complete (js "tap") pre post 0) as Hin.
    rewrite <- E in Hin.
    assert (Hocc : occurrences (js "tap") text 0 = [12%nat]) by (vm_compute; reflexivity).
    rewrite Hocc in Hin. destruct Hin as [Hlen|[]]. simpl in Hlen.
    symmetry in E, Hlen. destruct (split_at pre (js "tap" ++ post) Hlen E) as [-> E2].
    split; [vm_compute; reflexivity|].
    assert (E3 : post = skipn 3 (skipn 12 text)).
    { rewrite <- E2. reflexivity. }
    rewrite E3. vm_compute. reflexivity.
  - rewrite Htext. vm_compute. reflexivity.
  - unfold inferJob. rewrite Htext. vm_compute. reflexivity.
Qed.

End Classifier.

Lemma C6_first_match_in_declaration_order_witness :
  let input := {| description := js "the tap drips on the shelf";
                  skillLevel := js "novice"; tags := Some [js "bracket"];
                  postcode := None |} in
  inferJob toLowerCaseASCII input = Some hang_shelf.
Proof.
  intros input.
  apply (proj2 (proj2 (proj2 (proj2
           (C6_first_match_in_declaration_order toLowerCaseASCII input))))).
  - exists (js "the tap drips on the "), (js " bracket"). vm_compute. reflexivity.
  - exists (js "the "), (js " drips on the shelf bracket"). vm_compute. reflexivity.
Defined.

Lemma C10_tape_classified_as_tap_witness :
  let input := {| description := js "use masking tape before you paint the wall";
                  skillLevel := js "novice"; tags := Some []; postcode := None |} in
  let text := js "use masking tape before you paint the wall " in
  toLowerCaseASCII text = text /\
  inferJob toLowerCaseASCII input = Some replace_tap_washer.
Proof.
  intros input text.
  assert (H : toLowerCaseASCII text = text) by (vm_compute; reflexivity).
  split; [exact H|].
  exact (proj2 (proj2 (proj2 (proj2 (C10_tape_classified_as_tap toLowerCaseASCII H))))).
Defined.

(** ** The handler *)

Section Handler.

Variable toLowerCase : jsstring -> jsstring.

(** Requests leave the catalog's arrays as the module created them. *)
Lemma POST_keeps_catalog (env : Env) (b : Request.Body) (h : heap) :
  catalog_intact h -> catalog_intact (snd (POST toLowerCase env b h)).
Proof.
  intros H. unfold POST, knowledge_base.
  destruct (provider_attempt env (normalize b)); [exact H|].
  destruct (inferJob toLowerCase (normalize b)) as [key|]; [|exact H].
  unfold bind, assessFromKB, serialize, ret.
  pose proof (assess_keeps_catalog (KB key) (normalize b) H) as H'.
  destruct (assess (KB key) (normalize b) h) as [out h']. exact H'.
Qed.

(** Every path answers with status 200. *)
Lemma POST_status (env : Env) (b : Request.Body) (h : heap) :
  status (fst (POST toLowerCase env b h)) = 200.
Proof.
  unfold POST, knowledge_base.
  destruct (provider_attempt env (normalize b)); [reflexivity|].
  destruct (inferJob toLowerCase (normalize b)) as [key|]; [|reflexivity].
  unfold bind, assessFromKB, serialize, ret.
  destruct (assess (KB key) (normalize b) h) as [out h']. reflexivity.
Qed.

(** A skill level that is missing, or the empty string, is read as novice. *)
Lemma POST_missing_skill_is_novice (env : Env) (h : heap)
    (d : option jsstring) (t : option (list jsstring)) (p : option jsstring)
    (skill : option jsstring) :
  skill = None \/ skill = Some [] ->
  POST toLowerCase env
    {| Request.description := d; Request.skillLevel := skill;
       Request.tags := t; Request.postcode := p |} h =
  POST toLowerCase env
    {| Request.description := d; Request.skillLevel := Some (js "novice");
       Request.tags := t; Request.postcode := p |} h.
Proof. intros [->| ->]; reflexivity. Qed.

(** Any other string that is not one of the three names is kept as it is,
    and the scorer then computes with NaN: the score is NaN, which no
    comparison exceeds, so the decision is DIY. *)
Lemma invalid_skill_scores_NaN (job : Job.t) (input : AssessmentInput) (h : heap) :
  skill_table (skillLevel input) = None ->
  score (fst (assess job input h)) = NaN /\
  decision (fst (assess job input h)) = DIY.
Proof.
  intros H. rewrite assess_run. cbn [fst score decision].
  unfold score_of, skillNum_of. rewrite H, risk_score_Fin. split; reflexivity.
Qed.

(** C5. On the knowledge-base path, when the lowercased text matches the
    keyword pattern of no catalog entry, the response has status 200 and
    carries exactly: decision Get a Pro, score 75, the two fixed rationale
    sentences, empty steps, tools and materials, and the one fixed safety
    sentence; the store is untouched. *)
Theorem C5_unknown_job_default (env : Env) (b : Request.Body) (h : heap) :
  provider_attempt env (normalize b) = None ->
  (forall key : JobKey,
     String_match (text_of toLowerCase (normalize b)) (pattern key) = false) ->
  POST toLowerCase env b h =
  ({| body :=
        JObj [ (js "decision", JStr (js "Get a Pro"));
               (js "score", JNum 75);
               (js "rationale",
                JArr [ JStr (js "Unable to match your description to our known jobs.");
                       JStr (js "For ambiguous or unknown tasks, we err on the side of caution.") ]);
               (js "steps", JArr []);
               (js "tools", JArr []);
               (js "materials", JArr []);
               (js "safety",
                JArr [ JStr (js "Please consult a professional or provide more details to get specific advice.") ]) ];
      status := 200 |}, h).
Proof.
  intros Hprov Hnone. unfold POST. rewrite Hprov. unfold knowledge_base.
  apply inferJob_none in Hnone. rewrite Hnone. reflexivity.
Qed.

(** C7, as the code has it. With a provider configured, the response is
    the knowledge-base one when the call throws, when the completion has
    no content or an empty one, and when the content is not JSON; content
    that is JSON is sent back as it is, with status 200, whatever its
    shape. *)
Theorem C7_provider_json_returned_unvalidated
    (env : Env) (b : Request.Body) (h : heap) (apiKey : jsstring) :
  OPENAI_API_KEY env = Some apiKey ->
  truthy apiKey = true ->
  POST toLowerCase env b h =
  match chat_completions_create env apiKey (js "gpt-4.1-mini")
          systemPrompt (userPrompt (normalize b)) with
  | Returned (Some (Json value)) => ({| body := value; status := 200 |}, h)
  | Returned (Some (NotJson _)) => knowledge_base toLowerCase (normalize b) h
  | Returned None => knowledge_base toLowerCase (normalize b) h
  | Thrown => knowledge_base toLowerCase (normalize b) h
  end.
Proof.
  intros Hkey Htruthy. unfold POST, provider_attempt. rewrite Hkey, Htruthy.
  destruct (chat_completions_create _ _ _ _ _) as [|[[text|value]|]];
    try reflexivity.
  cbn [content_truthy JSON_parse]. now destruct (truthy text).
Qed.

End Handler.

(** The first scenario of the specification, from the request to the
    response: the capital letter is lowercased, the shelf pattern matches,
    and the answer is DIY with score 40. *)
Example shelf_request :
  let r := fst (POST toLowerCaseASCII no_provider
                  (request "I need to hang a Shelf in my bedroom" (Some (js "novice")))
                  KB_heap) in
  response_field "decision" r = Some (JStr (js "DIY")) /\
  response_field "score" r = Some (JNum 40) /\
  status r = 200.
Proof. vm_compute. repeat split; reflexivity. Qed.

Lemma C5_unknown_job_default_witness :
  let b := request "quantum entanglement repair" None in
  provider_attempt no_provider (normalize b) = None /\
  (forall key : JobKey,
     String_match (text_of toLowerCaseASCII (normalize b)) (pattern key) = false) /\
  response_field "score" (fst (POST toLowerCaseASCII no_provider b KB_heap)) = Some (JNum 75).
Proof.
  intros b.
  assert (H1 : provider_attempt no_provider (normalize b) = None) by reflexivity.
  assert (H2 : forall key : JobKey,
             String_match (text_of toLowerCaseASCII (normalize b)) (pattern key) = false)
    by (intros key; destruct key; vm_compute; reflexivity).
  split; [exact H1|]. split; [exact H2|].
  rewrite (C5_unknown_job_default toLowerCaseASCII no_provider b KB_heap H1 H2).
  reflexivity.
Defined.

Lemma C7_provider_json_returned_unvalidated_witness :
  let env := provider_saying (NotJson (js "Sorry, I cannot help with that.")) in
  let b := request "I need to hang a shelf in my bedroom" None in
  OPENAI_API_KEY env = Some (js "sk-test") /\
  truthy (js "sk-test") = true /\
  POST toLowerCaseASCII env b KB_heap = knowledge_base toLowerCaseASCII (normalize b) KB_heap.
Proof.
  intros env b. split; [reflexivity|]. split; [reflexivity|].
  exact (C7_provider_json_returned_unvalidated toLowerCaseASCII env b KB_heap
           (apiKey := js "sk-test") eq_refl eq_refl).
Defined.

(** C7, as the specification states it, fails. A provider answers the text
    of an object that has none of the fields of an assessment; the handler
    sends that object back, where the knowledge base would have answered
    DIY for the same request. *)
Lemma C7_nonconforming_json_is_returned :
  let advice := JObj [ (js "advice", JStr (js "ask a friend")) ] in
  let env := provider_saying (Json advice) in
  let b := request "I need to hang a shelf in my bedroom" (Some (js "novice")) in
  has_AssessmentOutput_shape advice = false /\
  fst (POST toLowerCaseASCII env b KB_heap) = {| body := advice; status := 200 |} /\
  response_field "decision" (fst (POST toLowerCaseASCII env b KB_heap)) = None /\
  response_field "decision" (fst (knowledge_base toLowerCaseASCII (normalize b) KB_heap)) =
    Some (JStr (js "DIY")).
Proof. vm_compute. repeat split; reflexivity. Qed.

(** C4 fails on the code. The request names the ceiling-light job with the
    skill level [expert]: the string is kept, the score is NaN (written as
    null) and the decision DIY, with three rationale sentences. The same
    request with [novice] is answered Get a Pro with score 100 and the
    extra caution sentence. *)
Theorem C4_invalid_skill_not_defaulted :
  let bad := fst (POST toLowerCaseASCII no_provider
                    (request "replace a ceiling light fixture" (Some (js "expert"))) KB_heap) in
  let good := fst (POST toLowerCaseASCII no_provider
                     (request "replace a ceiling light fixture" (Some (js "novice"))) KB_heap) in
  response_field "decision" bad = Some (JStr (js "DIY")) /\
  response_field "score" bad = Some JNull /\
  response_field "rationale" bad =
    Some (json_of_strings
            [ js "This task appears feasible for your skill level.";
              js "Electrical work can be dangerous and may require certification.";
              js "Working at height increases the chance of falls." ]) /\
  response_field "decision" good = Some (JStr (js "Get a Pro")) /\
  response_field "score" good = Some (JNum 100) /\
  response_field "rationale" good =
    Some (json_of_strings
            [ js "This task may be too challenging or risky for you.";
              js "Electrical work can be dangerous and may require certification.";
              js "You indicated you are not advanced; electrical tasks are high risk.";
              js "Working at height increases the chance of falls." ]).
Proof. vm_compute. repeat split; reflexivity. Qed.

(* ===================================================================== *)
(** * Further properties of the route *)

(** ** The scorer beyond the three skill levels *)

Lemma POST_missing_skill_is_novice_witness :
  POST toLowerCaseASCII no_provider
    {| Request.description := Some (js "paint the hall"); Request.skillLevel := None;
       Request.tags := None; Request.postcode := None |} KB_heap =
  POST toLowerCaseASCII no_provider
    {| Request.description := Some (js "paint the hall");
       Request.skillLevel := Some (js "novice");
       Request.tags := None; Request.postcode := None |} KB_heap.
Proof.
  exact (POST_missing_skill_is_novice toLowerCaseASCII no_provider KB_heap
           (Some (js "paint the hall")) None None (or_introl eq_refl)).
Defined.

Lemma In_existsb_jseqb (x : jsstring) (l : list jsstring) :
  In x l <-> existsb (jseqb x) l = true.
Proof.
  rewrite existsb_exists. split.
  - intros H. exists x. split; [assumption|now apply jseqb_eq].
  - intros (y & Hy & E). apply jseqb_eq in E. now subst.
Qed.

(** A skill level that is none of the three names, whatever the job: the
    score is NaN, the decision DIY, and the rationale is the feasible
    sentence followed by one sentence per flag that is set, without the
    caution for electrical work by someone who is not advanced. *)
Theorem invalid_skill_assessment (job : Job.t) (input : AssessmentInput) (h : heap) :
  skill_table (skillLevel input) = None ->
  let (out, h') := assess job input h in
  score out = NaN /\
  decision out = DIY /\
  deref h' (rationale out) =
    js "This task appears feasible for your skill level." ::
    (if Job.electrical (Job.risk job)
     then [js "Electrical work can be dangerous and may require certification."]
     else []) ++
    (if Job.plumbing (Job.risk job)
     then [js "Plumbing jobs risk leaks and water damage if done incorrectly."]
     else []) ++
    (if Job.workingAtHeight (Job.risk job)
     then [js "Working at height increases the chance of falls."]
     else []).
Proof.
  intros H. rewrite assess_run. cbn [score decision rationale].
  rewrite deref_fresh.
  assert (Hs : score_of job input = NaN).
  { unfold score_of, skillNum_of. rewrite H, risk_score_Fin. reflexivity. }
  rewrite Hs. split; [reflexivity|]. split; [reflexivity|].
  unfold reasons, skillNum_of. rewrite H.
  destruct (Job.electrical _); reflexivity.
Qed.

Lemma invalid_skill_assessment_witness :
  skill_table (js "expert") = None /\
  score (fst (assess (KB fit_light_fixture)
                {| description := []; skillLevel := js "expert";
                   tags := None; postcode := None |} KB_heap)) = NaN.
Proof.
  split; [reflexivity|].
  pose proof (@invalid_skill_assessment (KB fit_light_fixture)
                {| description := []; skillLevel := js "expert";
                   tags := None; postcode := None |} KB_heap eq_refl) as H.
  destruct (assess (KB fit_light_fixture) _ KB_heap) as [out h'].
  exact (proj1 H).
Defined.

(** More skill never raises the score: for any job the scores of novice,
    intermediate and advanced are numbers in decreasing order, and a job
    that is DIY for one level is DIY for every higher one. *)
Theorem score_monotone_in_skill (job : Job.t)
    (d : jsstring) (t : option (list jsstring)) (p : option jsstring) (h : heap) :
  let run s := fst (assess job (input_with d s t p) h) in
  exists zn zi za : Z,
    score (run novice) = Fin zn /\
    score (run intermediate) = Fin zi /\
    score (run advanced) = Fin za /\
    za <= zi <= zn /\
    (decision (run novice) = DIY -> decision (run intermediate) = DIY) /\
    (decision (run intermediate) = DIY -> decision (run advanced) = DIY).
Proof.
  intros run. unfold run. rewrite !assess_run. cbn [fst score decision].
  rewrite !score_of_valid. cbn [ordinal].
  set (r := Job.baseDifficulty job * 10 + penalty (Job.risk job)).
  do 3 eexists. repeat split; try reflexivity; try lia;
    unfold decision_of, num_gt;
    repeat match goal with |- context [?a >? ?b] => destruct (Z.gtb_spec a b) end;
    intros; try reflexivity; try discriminate; lia.
Qed.

(** The caution for electrical work is in the rationale exactly when the
    job is electrical and the skill level is not advanced; the rationale
    always starts with the verdict and has at most five sentences. *)
Theorem caution_sentence_iff (job : Job.t) (s : SkillLevel)
    (d : jsstring) (t : option (list jsstring)) (p : option jsstring) (h : heap) :
  let (out, h') := assess job (input_with d s t p) h in
  (In (js "You indicated you are not advanced; electrical tasks are high risk.")
      (deref h' (rationale out)) <->
   Job.electrical (Job.risk job) = true /\ s <> advanced) /\
  (1 <= List.length (deref h' (rationale out)) <= 5)%nat.
Proof.
  rewrite assess_run. cbn [rationale]. rewrite deref_fresh.
  rewrite In_existsb_jseqb. unfold reasons, skillNum_of, input_with.
  cbn [skillLevel]. rewrite skill_table_valid.
  destruct (decision_of _), (Job.electrical _), (Job.plumbing _),
    (Job.workingAtHeight _), s; vm_compute;
    (split;
     [split;
      [intros H;
       first [discriminate H | split; [reflexivity|intros E; discriminate E]]
      |intros [H1 H2];
       first [reflexivity | discriminate H1 | exfalso; apply H2; reflexivity]]
     |lia]).
Qed.

(** Over the catalog and the three skill levels, the knowledge base says
    Get a Pro for the ceiling light and for nothing else. *)
Theorem catalog_decisions (key : JobKey) (s : SkillLevel)
    (d : jsstring) (t : option (list jsstring)) (p : option jsstring) (h : heap) :
  decision (fst (assessFromKB (input_with d s t p) key h)) = GetAPro <->
  key = fit_light_fixture.
Proof.
  unfold assessFromKB. rewrite assess_run. cbn [fst decision].
  rewrite score_of_valid.
  destruct key, s; vm_compute; split; intros H; try reflexivity; discriminate H.
Qed.

(** ** The store and the provider switch *)

Section Frame.

Variable toLowerCase : jsstring -> jsstring.


(** Without a key, or with the empty string for a key, the provider is not
    called: the response is the knowledge base's, whatever the provider
    would have answered. *)
Theorem POST_without_key (env : Env) (b : Request.Body) (h : heap) :
  OPENAI_API_KEY env = None \/ OPENAI_API_KEY env = Some [] ->
  POST toLowerCase env b h = knowledge_base toLowerCase (normalize b) h.
Proof.
  intros [H|H]; unfold POST, provider_attempt; rewrite H; reflexivity.
Qed.

End Frame.

Lemma POST_without_key_witness :
  let env := {| OPENAI_API_KEY := Some [];
                chat_completions_create :=
                  fun _ _ _ _ => Returned (Some (Json (JObj []))) |} in
  let b := request "paint the hall" None in
  POST toLowerCaseASCII env b KB_heap =
  knowledge_base toLowerCaseASCII (normalize b) KB_heap.
Proof.
  intros env b.
  exact (POST_without_key toLowerCaseASCII env b KB_heap (or_intror eq_refl)).
Defined.

(** ** The classifier in terms of keywords *)

Lemma String_match_Lit (text w : jsstring) :
  String_match text (Lit w) = true <-> contains w text.
Proof.
  rewrite String_match_spec. split.
  - intros (pre & m & post & -> & Hm). inversion Hm; subst. now exists pre, post.
  - intros (pre & post & ->). exists pre, w, post. split; [reflexivity|constructor].
Qed.

Lemma String_match_Alt (text : jsstring) (r1 r2 : regex) :
  String_match text (Alt r1 r2) = true <->
  String_match text r1 = true \/ String_match text r2 = true.
Proof.
  rewrite !String_match_spec. split.
  - intros (pre & m & post & E & Hm). inversion Hm; subst;
      [left|right]; now exists pre, m, post.
  - intros [(pre & m & post & E & Hm)|(pre & m & post & E & Hm)];
      exists pre, m, post; split; trivial; [now apply MAltL|now apply MAltR].
Qed.

Lemma String_match_o_ring (text : jsstring) :
  String_match text (Seq (Lit (js "o")) (Seq (Opt White) (Lit (js "ring")))) = true <->
  contains (js "oring") text \/ o_space_ring text.
Proof.
  rewrite String_match_spec. split.
  - intros (pre & m & post & -> & Hm).
    inversion Hm as [ | | | |r1 r2 m1 m2 H1 H2| | ]; subst.
    inversion H1; subst.
    inversion H2 as [ | | | |r1' r2' m3 m4 H3 H4| | ]; subst.
    inversion H4; subst.
    inversion H3 as [ | |r|r m' Hw| | | ]; subst.
    + left. now exists pre, post.
    + inversion Hw as [ |c Hc| | | | | ]; subst.
      right. exists c. split; [assumption|]. now exists pre, post.
  - intros [(pre & post & ->)|(c & Hc & pre & post & ->)].
    + exists pre, (js "o" ++ [] ++ js "ring"), post. split; [reflexivity|].
      apply MSeq; [constructor|]. apply MSeq; [apply MOptNone|constructor].
    + exists pre, (js "o" ++ [c] ++ js "ring"), post. split; [reflexivity|].
      apply MSeq; [constructor|].
      apply MSeq; [apply MOptSome; now constructor|constructor].
Qed.

Lemma re_shelf_words (text : jsstring) :
  String_match text re_shelf = true <-> shelf_words text.
Proof.
  unfold re_shelf, shelf_words. now rewrite !String_match_Alt, !String_match_Lit.
Qed.

Lemma re_tap_words (text : jsstring) :
  String_match text re_tap = true <-> tap_words text.
Proof.
  unfold re_tap, tap_words.
  now rewrite !String_match_Alt, !String_match_Lit, String_match_o_ring.
Qed.

Lemma re_paint_words (text : jsstring) :
  String_match text re_paint = true <-> paint_words text.
Proof.
  unfold re_paint, paint_words. now rewrite !String_match_Alt, !String_match_Lit.
Qed.

Lemma re_light_words (text : jsstring) :
  String_match text re_light = true <-> light_words text.
Proof.
  unfold re_light, light_words. now rewrite !String_match_Alt, !String_match_Lit.
Qed.

Section Keywords.

Variable toLowerCase : jsstring -> jsstring.

(** The answer of the classifier, read off the keywords the lowercased
    text contains anywhere: the shelf job as soon as a shelf keyword is
    there; each later job when one of its keywords is there and no keyword
    of an earlier job is; no job exactly when no keyword is there. *)
Theorem inferJob_by_keywords (input : AssessmentInput) :
  let text := text_of toLowerCase input in
  (inferJob toLowerCase input = Some hang_shelf <-> shelf_words text) /\
  (inferJob toLowerCase input = Some replace_tap_washer <->
     ~ shelf_words text /\ tap_words text) /\
  (inferJob toLowerCase input = Some paint_wall <->
     ~ shelf_words text /\ ~ tap_words text /\ paint_words text) /\
  (inferJob toLowerCase input = Some fit_light_fixture <->
     ~ shelf_words text /\ ~ tap_words text /\ ~ paint_words text /\
     light_words text) /\
  (inferJob toLowerCase input = None <->
     ~ shelf_words text /\ ~ tap_words text /\ ~ paint_words text /\
     ~ light_words text).
Proof.
  intros text. unfold inferJob. fold text.
  rewrite <- re_shelf_words, <- re_tap_words, <- re_paint_words, <- re_light_words.
  destruct (String_match text re_shelf), (String_match text re_tap),
    (String_match text re_paint), (String_match text re_light);
    repeat split; intros; try discriminate; try reflexivity;
    repeat match goal with
           | H : _ /\ _ |- _ => destruct H
           | H : ~ true = true |- _ => exfalso; apply H; reflexivity
           end;
    try discriminate; try reflexivity; try (intros E; discriminate E).
Qed.

End Keywords.

(** ** The shape of what the knowledge base answers *)

Lemma forallb_is_string (xs : list jsstring) : forallb is_string (map JStr xs) = true.
Proof. induction xs; simpl; trivial. Qed.

Lemma is_decision_text (d : Decision) : is_decision (Some (JStr (decision_text d))) = true.
Proof. destruct d; vm_compute; reflexivity. Qed.

(** An object with the seven fields of an assessment, each of its type,
    has the shape of the interface and none of the three optional fields. *)
Lemma seven_fields_shape (dv sv rv stv tov mav sav : json) :
  is_decision (Some dv) = true ->
  is_number sv = true ->
  is_string_array (Some rv) = true ->
  is_string_array (Some stv) = true ->
  is_string_array (Some tov) = true ->
  is_string_array (Some mav) = true ->
  is_string_array (Some sav) = true ->
  let fs := [ (js "decision", dv); (js "score", sv); (js "rationale", rv);
              (js "steps", stv); (js "tools", tov); (js "materials", mav);
              (js "safety", sav) ] in
  has_AssessmentOutput_shape (JObj fs) = true /\
  field (js "durationMin") fs = None /\
  field (js "costLow") fs = None /\
  field (js "costHigh") fs = None.
Proof.
  intros Hd Hs Hr Hst Hto Hma Hsa fs.
  assert (F1 : field (js "decision") fs = Some dv) by (vm_compute; reflexivity).
  assert (F2 : field (js "score") fs = Some sv) by (vm_compute; reflexivity).
  assert (F3 : field (js "rationale") fs = Some rv) by (vm_compute; reflexivity).
  assert (F4 : field (js "steps") fs = Some stv) by (vm_compute; reflexivity).
  assert (F5 : field (js "tools") fs = Some tov) by (vm_compute; reflexivity).
  assert (F6 : field (js "materials") fs = Some mav) by (vm_compute; reflexivity).
  assert (F7 : field (js "safety") fs = Some sav) by (vm_compute; reflexivity).
  assert (F8 : field (js "durationMin") fs = None) by (vm_compute; reflexivity).
  assert (F9 : field (js "costLow") fs = None) by (vm_compute; reflexivity).
  assert (F10 : field (js "costHigh") fs = None) by (vm_compute; reflexivity).
  unfold has_AssessmentOutput_shape.
  rewrite F1, F2, F3, F4, F5, F6, F7, F8, F9, F10, Hd, Hs, Hr, Hst, Hto, Hma, Hsa.
  repeat split.
Qed.

Section Shape.

Variable toLowerCase : jsstring -> jsstring.

(** The knowledge base answers an input whose skill level is one of the
    three names with an object of the shape of the interface. *)
Lemma knowledge_base_shape (input : AssessmentInput) (h : heap) (s : SkillLevel) :
  skillLevel input = skill_text s ->
  let r := fst (knowledge_base toLowerCase input h) in
  has_AssessmentOutput_shape (body r) = true /\
  response_field "durationMin" r = None /\
  response_field "costLow" r = None /\
  response_field "costHigh" r = None.
Proof.
  intros Hskill r. unfold r, knowledge_base.
  destruct (inferJob toLowerCase input) as [key|].
  - unfold bind, assessFromKB, serialize, ret. rewrite assess_run.
    cbn [fst body NextResponse_json score decision rationale steps tools materials safety].
    unfold response_field. cbn [body].
    assert (Hz : exists z, score_of (KB key) input = Fin z).
    { unfold score_of, skillNum_of. rewrite Hskill, skill_table_valid, risk_score_Fin.
      eexists. reflexivity. }
    destruct Hz as [z ->]. cbn [json_of_number].
    apply seven_fields_shape; try reflexivity;
      try (unfold json_of_strings, is_string_array; apply forallb_is_string).
    apply is_decision_text.
  - cbn [fst ret]. vm_compute. repeat split; reflexivity.
Qed.

(** On the knowledge-base path, a request whose skill level is one of the
    three names (or is missing, which reads as novice) is answered with an
    object of the shape of [interface AssessmentOutput], matched job or
    not, and the object never has durationMin, costLow or costHigh. *)
Theorem knowledge_base_response_shape (env : Env) (b : Request.Body) (h : heap)
    (s : SkillLevel) :
  provider_attempt env (normalize b) = None ->
  skillLevel (normalize b) = skill_text s ->
  let r := fst (POST toLowerCase env b h) in
  has_AssessmentOutput_shape (body r) = true /\
  response_field "durationMin" r = None /\
  response_field "costLow" r = None /\
  response_field "costHigh" r = None.
Proof.
  intros Hprov Hskill r. unfold r, POST. rewrite Hprov.
  now apply knowledge_base_shape with (s := s).
Qed.

End Shape.

Lemma knowledge_base_response_shape_witness :
  let b := request "my tap is dripping" None in
  has_AssessmentOutput_shape (body (fst (POST toLowerCaseASCII no_provider b KB_heap))) = true.
Proof.
  intros b.
  exact (proj1 (@knowledge_base_response_shape toLowerCaseASCII no_provider b KB_heap
                  novice eq_refl eq_refl)).
Defined.

(* ===================================================================== *)
(** * Properties of the page *)

(** ** What the page sends *)

Lemma trim_start_split (s : jsstring) :
  exists ws, s = ws ++ trim_start s /\ forallb is_space ws = true.
Proof.
  induction s as [|c s (ws & E & Hws)]; simpl.
  - now exists [].
  - destruct (is_space c) eqn:Hc.
    + exists (c :: ws). simpl. rewrite Hc, Hws. split; [now f_equal|reflexivity].
    + now exists [].
Qed.

Lemma trim_start_head (s : jsstring) (c : N) (rest : jsstring) :
  trim_start s = c :: rest -> is_space c = false.
Proof.
  induction s as [|a s IH]; simpl; [discriminate|].
  destruct (is_space a) eqn:Ha; [exact IH|]. now intros [= <- _].
Qed.

Lemma trim_start_fixed (s : jsstring) :
  (forall c rest, s = c :: rest -> is_space c = false) -> trim_start s = s.
Proof.
  destruct s as [|c s]; simpl; [reflexivity|].
  intros H. now rewrite (H c s eq_refl).
Qed.

(** [trim] keeps a run of the string, with whitespace at neither end. *)
Lemma String_trim_spec (s : jsstring) :
  (exists front back, s = front ++ String_trim s ++ back) /\
  (forall c rest, String_trim s = c :: rest -> is_space c = false) /\
  (forall c front, String_trim s = front ++ [c] -> is_space c = false).
Proof.
  unfold String_trim.
  destruct (trim_start_split s) as (ws1 & E1 & _).
  destruct (trim_start_split (rev (trim_start s))) as (ws2 & E2 & _).
  set (u := trim_start s) in *. set (v := trim_start (rev u)) in *.
  assert (Eu : u = rev v ++ rev ws2).
  { rewrite <- (rev_involutive u), E2. apply rev_app_distr. }
  split; [|split].
  - exists ws1, (rev ws2). now rewrite <- Eu.
  - intros c rest Hv. rewrite Hv in Eu. simpl in Eu.
    now apply (@trim_start_head s c (rest ++ rev ws2)).
  - intros c front Hv. apply (f_equal (@rev N)) in Hv.
    rewrite rev_involutive, rev_app_distr in Hv. simpl in Hv.
    now apply (@trim_start_head (rev u) c (rev front)).
Qed.

Lemma String_trim_clean (t : jsstring) : clean_tag t -> String_trim t = t.
Proof.
  intros (_ & _ & Hhead & Hlast). unfold String_trim.
  rewrite (trim_start_fixed Hhead).
  rewrite trim_start_fixed; [apply rev_involutive|].
  intros c rest E. apply (Hlast c (rev rest)).
  rewrite <- (rev_involutive t), E. reflexivity.
Qed.

Lemma String_split_pieces (sep : N) (s p : jsstring) :
  In p (String_split sep s) -> ~ In sep p.
Proof.
  revert p; induction s as [|c s IH]; simpl; intros p.
  - intros [<-|[]]. intros [].
  - destruct (N.eqb_spec c sep) as [->|Hc].
    + intros [<-|H]; [intros []|now apply IH].
    + destruct (String_split sep s) as [|q qs].
      * intros [<-|[]]. intros [E|[]]. congruence.
      * intros [<-|H].
        -- intros [E|H]; [congruence|]. apply (IH q); [now left|assumption].
        -- apply IH. now right.
Qed.

Lemma String_split_cons (sep c : N) (s : jsstring) :
  c <> sep ->
  String_split sep (c :: s) =
  match String_split sep s with
  | piece :: pieces => (c :: piece) :: pieces
  | [] => [[c]]
  end.
Proof. intros H. simpl. now destruct (N.eqb_spec c sep). Qed.

Lemma String_split_app (sep : N) (x rest : jsstring) :
  ~ In sep x -> String_split sep (x ++ sep :: rest) = x :: String_split sep rest.
Proof.
  induction x as [|c x IH]; intros H.
  - simpl. now rewrite N.eqb_refl.
  - simpl app. rewrite String_split_cons by (intros ->; apply H; now left).
    rewrite IH; [reflexivity|]. intros Hx. apply H. now right.
Qed.

Lemma String_split_whole (sep : N) (x : jsstring) :
  ~ In sep x -> String_split sep x = [x].
Proof.
  induction x as [|c x IH]; intros H; [reflexivity|].
  rewrite String_split_cons by (intros ->; apply H; now left).
  rewrite IH; [reflexivity|]. intros Hx. apply H. now right.
Qed.

(** Every tag the page sends is clean: not empty, without a comma, with
    no whitespace at its ends. *)
Theorem parse_tags_clean (tags : jsstring) : Forall clean_tag (parse_tags tags).
Proof.
  apply Forall_forall. intros t Ht. unfold parse_tags in Ht.
  apply filter_In in Ht as [Ht Htruthy]. apply in_map_iff in Ht as (p & <- & Hp).
  destruct (String_trim_spec p) as ((front & back & Ep) & Hhead & Hlast).
  repeat split; try assumption.
  - intros E. rewrite E in Htruthy. discriminate.
  - intros Hin. apply (String_split_pieces _ _ _ Hp).
    rewrite Ep. apply in_or_app. right. apply in_or_app. now left.
Qed.

(** Tags written with a comma and a space between them, as the placeholder
    of the input shows, are read back one by one, in order. *)
Theorem parse_tags_join (ts : list jsstring) :
  Forall clean_tag ts -> parse_tags (join (js ", ") ts) = ts.
Proof.
  intros Hts. unfold parse_tags.
  assert (Hpieces : forall x r, Forall clean_tag (x :: r) ->
            String_split comma (join (js ", ") (x :: r)) = x :: map (cons 32%N) r).
  { intros x r; revert x; induction r as [|y r IH]; intros x Hx.
    - simpl. apply String_split_whole. inversion Hx as [|? ? Hc _]; subst. apply Hc.
    - inversion Hx as [|? ? Hc Hr]; subst.
      change (join (js ", ") (x :: y :: r))
        with (x ++ comma :: 32%N :: join (js ", ") (y :: r)).
      rewrite String_split_app by apply Hc.
      rewrite String_split_cons by discriminate.
      rewrite (IH y Hr). reflexivity. }
  destruct ts as [|x r]; [reflexivity|].
  rewrite (Hpieces x r Hts).
  assert (Htrim : forall l, Forall clean_tag l ->
            filter truthy (map String_trim l) = l).
  { induction l as [|a l IH]; intros Hl; [reflexivity|].
    inversion Hl as [|? ? Ha Hl']; subst. simpl.
    rewrite (String_trim_clean Ha), (IH Hl').
    destruct a; [destruct Ha as [Ha _]; now elim Ha|reflexivity]. }
  replace (map String_trim (x :: map (cons 32%N) r)) with (map String_trim (x :: r)).
  - apply Htrim, Hts.
  - simpl. f_equal. rewrite map_map. apply map_ext. intros a. reflexivity.
Qed.

Lemma parse_tags_join_witness :
  let ts := [js "plasterboard"; js "bracket"] in
  Forall clean_tag ts /\ parse_tags (js "plasterboard, bracket") = ts.
Proof.
  intros ts.
  assert (H : Forall clean_tag ts).
  { repeat constructor; try discriminate;
      try (vm_compute; intuition discriminate);
      try (intros c rest E; vm_compute in E; injection E as <- _; reflexivity);
      intros c front E; apply (f_equal (@rev N)) in E;
      rewrite rev_app_distr in E; vm_compute in E; injection E as <- _; reflexivity. }
  split; [exact H|]. exact (parse_tags_join H).
Defined.

(** ** What the page ends with *)

Lemma skill_text_truthy (s : SkillLevel) : truthy (skill_text s) = true.
Proof. destruct s; reflexivity. Qed.

Section Submit.

Variable toLowerCase : jsstring -> jsstring.
Variable stringify : json -> jsstring.

Lemma knowledge_base_status (input : AssessmentInput) (h : heap) :
  status (fst (knowledge_base toLowerCase input h)) = 200.
Proof.
  unfold knowledge_base.
  destruct (inferJob toLowerCase input) as [key|]; [|reflexivity].
  unfold bind, assessFromKB, serialize, ret.
  destruct (assess (KB key) input h) as [out h']. reflexivity.
Qed.

Lemma route_response_ok (env : Env) (b : Request.Body) (h : heap) :
  let r := fst (POST toLowerCase env b h) in
  (200 <=? status r) && (status r <=? 299) = true.
Proof.
  intros r. unfold r, POST.
  destruct (provider_attempt env (normalize b)); [reflexivity|].
  now rewrite knowledge_base_status.
Qed.

(** Against this route the page never ends with an error: whatever the
    form holds and however the provider behaves, once the response is
    delivered loading is off, error is null and result is the body of the
    response (null when the body is). *)
Theorem handleSubmit_against_route (env : Env) (h : heap) (f : Form.t) :
  handleSubmit (route_fetch toLowerCase stringify env h) f =
  {| loading := false; error := None;
     result := nullable (body (fst (POST toLowerCase env (submitted_body f) h))) |}.
Proof.
  unfold handleSubmit, route_fetch. cbn [Res.ok Res.text Res.json].
  now rewrite route_response_ok.
Qed.

(** When the knowledge base answers, every form the page can hold ends
    with a result of the shape of the interface: the select offers valid
    skill levels only, so the score is a number. *)
Theorem page_gets_an_assessment (env : Env) (h : heap) (f : Form.t) :
  provider_attempt env (normalize (submitted_body f)) = None ->
  exists data : json,
    handleSubmit (route_fetch toLowerCase stringify env h) f =
    {| loading := false; error := None; result := Some data |} /\
    has_AssessmentOutput_shape data = true.
Proof.
  intros Hprov. unfold handleSubmit, route_fetch. cbn [Res.ok Res.text Res.json].
  rewrite route_response_ok.
  unfold POST. rewrite Hprov. cbn [negb].
  assert (Hskill : skillLevel (normalize (submitted_body f)) =
                   skill_text (Form.skillLevel f)).
  { unfold normalize, submitted_body. cbn [skillLevel Request.skillLevel or_default].
    now rewrite skill_text_truthy. }
  destruct (@knowledge_base_shape toLowerCase _ h _ Hskill)
    as (Hshape & _).
  destruct (body (fst (knowledge_base toLowerCase (normalize (submitted_body f)) h)))
    eqn:E; try discriminate Hshape.
  eexists. split; [reflexivity|exact Hshape].
Qed.

(** Whatever [fetch] does, the page ends with loading off and never with
    both an error and a result; a result is only ever the data of a
    response that was ok; and a response that is not ok and has an empty
    text ends with the fixed message. *)
Theorem handleSubmit_outcome (fetch : Request.Body -> Settled Res.t) (f : Form.t) :
  let page := handleSubmit fetch f in
  loading page = false /\
  (error page = None \/ result page = None) /\
  (forall data, result page = Some data ->
     exists res, fetch (submitted_body f) = Fulfilled res /\
                 Res.ok res = true /\ Res.json res = Fulfilled data) /\
  (forall res, fetch (submitted_body f) = Fulfilled res ->
     Res.ok res = false -> Res.text res = Fulfilled [] ->
     error page = Some (js "Failed to assess job")).
Proof.
  intros page. unfold page, handleSubmit.
  destruct (fetch (submitted_body f)) as [[ok text data]|message];
    cbn [Res.ok Res.text Res.json].
  - destruct ok; cbn [negb].
    + destruct data as [data|message]; cbn [loading error result].
      * repeat split; try (now left).
        -- intros d Hd.
           assert (E : data = d) by (destruct data; cbn in Hd; congruence).
           subst d. eexists. repeat split.
        -- intros res [= <-]. discriminate.
      * repeat split; try (now right); try discriminate.
        intros res [= <-]. discriminate.
    + destruct text as [text|message]; cbn [loading error result];
        repeat split; try (now right); try discriminate;
        intros res [= <-] _ E; cbn in E; try discriminate E.
      injection E as ->. reflexivity.
  - cbn [loading error result]. repeat split; try (now right); discriminate.
Qed.

End Submit.

Lemma page_gets_an_assessment_witness :
  let f := {| Form.description := js "My tap is dripping"; Form.skillLevel := intermediate;
              Form.tags := js "washer, spanner"; Form.postcode := js " RG14 1AA " |} in
  provider_attempt no_provider (normalize (submitted_body f)) = None /\
  exists data : json,
    handleSubmit (route_fetch toLowerCaseASCII (fun _ => []) no_provider KB_heap) f =
    {| loading := false; error := None; result := Some data |} /\
    has_AssessmentOutput_shape data = true.
Proof.
  intros f. split; [reflexivity|].
  exact (page_gets_an_assessment toLowerCaseASCII (fun _ => []) no_provider KB_heap f
           eq_refl).
Defined.

(** ** Requests do not see one another *)

Section Stateless.

Variable toLowerCase : jsstring -> jsstring.

Lemma serialize_fresh (key : JobKey) (input : AssessmentInput) (later : heap) :
  let (out, h') := assess (KB key) input (KB_heap ++ later) in
  fst (serialize out h') = fst (serialize (fst (assess (KB key) input KB_heap))
                                          (snd (assess (KB key) input KB_heap))).
Proof.
  rewrite !assess_run. unfold serialize.
  cbn [fst snd decision score rationale steps tools materials safety].
  rewrite !deref_fresh.
  destruct (KB_refs_allocated key) as (H1 & H2 & H3 & H4).
  rewrite <- !app_assoc.
  rewrite !(@deref_old KB_heap (later ++ _)) by assumption.
  rewrite !(@deref_old KB_heap [_]) by assumption.
  reflexivity.
Qed.

(** The response to a request does not depend on the requests handled
    before it: in any store where the catalog's arrays are as created, the
    response is the one given in the initial store, and the store the
    request leaves is again such a store. *)
Theorem POST_response_independent_of_store (env : Env) (b : Request.Body) (h : heap) :
  catalog_intact h ->
  fst (POST toLowerCase env b h) = fst (POST toLowerCase env b KB_heap) /\
  catalog_intact (snd (POST toLowerCase env b h)).
Proof.
  intros H. split; [|now apply POST_keeps_catalog].
  destruct H as [later ->]. unfold POST, knowledge_base.
  destruct (provider_attempt env (normalize b)); [reflexivity|].
  destruct (inferJob toLowerCase (normalize b)) as [key|]; [|reflexivity].
  unfold bind, assessFromKB, ret.
  pose proof (serialize_fresh key (normalize b) later) as E.
  destruct (assess (KB key) (normalize b) (KB_heap ++ later)) as [out h'].
  destruct (assess (KB key) (normalize b) KB_heap) as [out0 h0].
  cbn [fst snd] in E.
  unfold serialize in *. cbn [fst] in *. now rewrite E.
Qed.

End Stateless.

Lemma POST_response_independent_of_store_witness :
  let first := request "replace a ceiling light fixture" (Some (js "advanced")) in
  let second := request "my tap is dripping" None in
  let h := snd (POST toLowerCaseASCII no_provider first KB_heap) in
  catalog_intact h /\
  fst (POST toLowerCaseASCII no_provider second h) =
  fst (POST toLowerCaseASCII no_provider second KB_heap).
Proof.
  intros first second h.
  assert (H : catalog_intact h).
  { apply POST_keeps_catalog. exists []. now rewrite app_nil_r. }
  split; [exact H|].
  exact (proj1 (POST_response_independent_of_store toLowerCaseASCII no_provider second H)).
Defined.
